(** * Floor-price bot: a shallow embedding of [bot.py] and its properties

    The development follows the layout of the program:

    - [PyFloat]      : Python's [int / int] and [round(x, 1)] on binary64
                       values, with exact integer arithmetic;
    - [PyStr]        : the few string operations the program uses
                       ([in], [split], f-string interpolation of [None]);
    - [Upstream]     : requests, replies and the parsed bodies the program
                       reads from its two services;
    - [Bot]          : the [Collection] methods, [fetch_collections], the
                       store helpers and the four commands, in an
                       exception-and-state monad over the table, the request
                       log and the sent messages;
    - [Samples]      : small services and states to run the commands on;
    - [Observations] : the predicates the statements are phrased with;
    - [Measures]     : request budgets and the numbers of a report;
    - [Flights]      : an [insert] cut at its awaits, and two of them in
                       flight on one event loop.

    The properties come after the definitions, one section per operation,
    and the worked instances close the file. *)

From Stdlib Require Import ZArith List String Ascii Bool Lia.
Import ListNotations.
Open Scope Z_scope.

(* ================================================================== *)
(** ** Python floats *)
(* ================================================================== *)

Module PyFloat.

(** A finite binary64 value: [(-1)^fneg * fmant * 2^fexp] with
    [0 <= fmant < 2^53] and [-1074 <= fexp <= 971].  Normal numbers have
    [2^52 <= fmant]; subnormals and zero have [fexp = -1074]. *)
Record pyfloat : Type := mkFloat { fneg : bool; fmant : Z; fexp : Z }.

Definition prec : Z := 53.
Definition emin : Z := -1074.
Definition emax : Z := 971.

(** The exact value of a float as a fraction [num / den], [den > 0]. *)
Definition fnum (x : pyfloat) : Z :=
  let m := if fneg x then - fmant x else fmant x in
  if 0 <=? fexp x then m * 2 ^ fexp x else m.

Definition fden (x : pyfloat) : Z :=
  if 0 <=? fexp x then 1 else 2 ^ (- fexp x).

(** Nearest integer to [n / d] for [0 <= n], [0 < d]; a tie goes to the even
    neighbour. *)
Definition round_half_even (n d : Z) : Z :=
  let q := n / d in
  let r := n mod d in
  match 2 * r ?= d with
  | Lt => q
  | Gt => q + 1
  | Eq => if Z.even q then q else q + 1
  end.

(** The binary exponent at which [n / d] has a 53-bit integer part, clamped
    to the subnormal exponent. *)
Definition binade (n d : Z) : Z :=
  let k := Z.log2 n - Z.log2 d in
  let above := if 0 <=? k then d * 2 ^ k <=? n else d <=? n * 2 ^ (- k) in
  let e := if above then k - (prec - 1) else k - prec in
  Z.max e emin.

(** [n / (d * 2^e)] rounded to the nearest integer, ties to even. *)
Definition scaled_round (n d e : Z) : Z :=
  if 0 <=? e then round_half_even n (d * 2 ^ e)
  else round_half_even (n * 2 ^ (- e)) d.

(** Correct rounding of the non-negative fraction [n / d] to binary64;
    [None] when the result is beyond the largest finite float. *)
Definition round_b64 (neg : bool) (n d : Z) : option pyfloat :=
  if n =? 0 then Some (mkFloat neg 0 emin)
  else
    let e := binade n d in
    let m := scaled_round n d e in
    let '(m, e) := if m =? 2 ^ prec then (2 ^ (prec - 1), e + 1) else (m, e) in
    if emax <? e then None else Some (mkFloat neg m e).

(** What [a / b] can do on two Python integers. *)
Inductive div_outcome : Type :=
| Quotient (x : pyfloat)
| DivisionByZero
| DivisionOverflow.

(** [a / b] on integers: the correctly rounded quotient (CPython's
    [long_true_divide]). *)
Definition int_truediv (a b : Z) : div_outcome :=
  if b =? 0 then DivisionByZero
  else
    let neg := xorb (a <? 0) (b <? 0) in
    match round_b64 neg (Z.abs a) (Z.abs b) with
    | Some x => Quotient x
    | None => DivisionOverflow
    end.

(** A decimal literal [digits * 10^(-places)], e.g. [1.2] is
    [decimal_literal 12 1]. *)
Definition decimal_literal (digits places : Z) : option pyfloat :=
  round_b64 (digits <? 0) (Z.abs digits) (10 ^ places).

(** [round(x, ndigits)] for [0 <= ndigits] small: the exact value of [x] is
    rounded half-even to [ndigits] decimals, and that decimal is converted
    back to the nearest float (CPython's [double_round]).  The sign of [x] is
    kept, also on a zero result. *)
Definition py_round (x : pyfloat) (ndigits : Z) : option pyfloat :=
  let scale := 10 ^ ndigits in
  let d := round_half_even (Z.abs (fnum x) * scale) (fden x) in
  round_b64 (fneg x) d scale.


(** [n / (d * 2^e) < B] and [B <= n / (d * 2^e)], without fractions. *)
Definition below (n d e B : Z) : Prop :=
  (0 <= e -> n < B * (d * 2 ^ e)) /\ (e < 0 -> n * 2 ^ (- e) < B * d).

Definition at_least (n d e B : Z) : Prop :=
  (0 <= e -> B * (d * 2 ^ e) <= n) /\ (e < 0 -> B * d <= n * 2 ^ (- e)).

End PyFloat.

(* ================================================================== *)
(** ** Python strings *)
(* ================================================================== *)

Module PyStr.

Open Scope string_scope.

Definition slash : ascii := "/"%char.
Definition newline : string := String "010"%char EmptyString.
Definition dquote : string := String "034"%char EmptyString.

(** [c in s] for a one-character [c]. *)
Fixpoint contains (c : ascii) (s : string) : bool :=
  match s with
  | EmptyString => false
  | String a rest => Ascii.eqb a c || contains c rest
  end.

(** [s.split(sep)] for a one-character separator: every occurrence splits,
    so the result has one more piece than [s] has separators. *)
Fixpoint split (sep : ascii) (s : string) : list string :=
  match s with
  | EmptyString => [EmptyString]
  | String a rest =>
      if Ascii.eqb a sep then EmptyString :: split sep rest
      else match split sep rest with
           | [] => [String a EmptyString]
           | piece :: pieces => String a piece :: pieces
           end
  end.

(** [xs[-1]] on a list of strings; [split] never returns the empty list. *)
Definition last_piece (xs : list string) : string := List.last xs EmptyString.

(** Interpolation [f'{x}'] of a value that is a string or [None]. *)
Definition fmt (x : option string) : string :=
  match x with
  | Some s => s
  | None => "None"
  end.

(** [not s] on a value that is a string or [None]. *)
Definition falsy (x : option string) : bool :=
  match x with
  | None => true
  | Some EmptyString => true
  | Some _ => false
  end.

(** [s] ends with [t]. *)
Definition ends_with (s t : string) : Prop := exists p, s = p ++ t.

End PyStr.

(* ================================================================== *)
(** ** The upstream services *)
(* ================================================================== *)

Module Upstream.

Import PyFloat.

(** A query parameter value: the program passes strings and one integer. *)
Inductive param : Type :=
| PStr (s : string)
| PInt (n : Z).

(** One [session.get(url, params=...)] call. *)
Record request : Type := mkRequest { url : string; params : list (string * param) }.

(** A key of a parsed JSON object: not there, there with [null], or there
    with a value of the type the upstream interface gives it. *)
Inductive field (A : Type) : Type :=
| Missing
| Null
| Val (a : A).
Arguments Missing {A}.
Arguments Null {A}.
Arguments Val {A} a.

(** An element of the search reply's [collections] array. *)
Record hit : Type := mkHit {
  hit_url : field string;
  hit_display_name : field string;
  hit_policy_id : field string
}.

(** An element of the [transactions] array. *)
Record txn : Type := mkTxn { amount_lovelace : field Z }.

(** A parsed reply body, restricted to the keys the program reads.  The
    marketplace serves [collections], [floor] and [transactions]; the
    secondary provider serves [thumbnail], [floor_price], [asset_minted] and
    [total_volume]. *)
Record body : Type := mkBody {
  j_collections : field (list hit);
  j_floor : field Z;
  j_transactions : field (list txn);
  j_thumbnail : field string;
  j_floor_price : field Z;
  j_asset_minted : field Z;
  j_total_volume : field Z
}.

(** A reply: its status and its body, [inl text] when the body does not parse
    ([resp.json()] raises with that text). *)
Record response : Type := mkResponse { status : Z; payload : string + body }.

(** What a [session.get] call meets: a reply, or a transport failure. *)
Inductive http_result : Type :=
| Reply (r : response)
| Failed (text : string).

(** The services: the answer to a request may depend on the requests made
    before it. *)
Definition service : Type := list request -> request -> http_result.

End Upstream.

(* ================================================================== *)
(** ** The bot *)
(* ================================================================== *)

Module Bot.

Import PyFloat PyStr Upstream.
Open Scope string_scope.
Open Scope Z_scope.

(** *** Exceptions, state and the command monad *)

(** The exceptions the modelled code can raise.  [ClientError] stands for what
    the HTTP library raises (transport failure, a body that is not JSON) and
    carries its text. *)
Inductive exn : Type :=
| FetchingException
| KeyError (key : string)
| TypeError (text : string)
| OverflowError (text : string)
| ZeroDivisionError (text : string)
| ClientError (text : string).

(** [str(e)]. *)
Definition exn_str (e : exn) : string :=
  match e with
  | FetchingException => EmptyString
  | KeyError key => "'" ++ key ++ "'"
  | TypeError text => text
  | OverflowError text => text
  | ZeroDivisionError text => text
  | ClientError text => text
  end.

Definition is_fetching (e : exn) : bool :=
  match e with
  | FetchingException => true
  | _ => false
  end.

(** The [Collection] dataclass; each attribute is what [dict.get] returned. *)
Record Collection : Type := mkCollection {
  name : option string;
  display_name : option string;
  policy_id : option string
}.

(** One numbered block of the report's description. *)
Record report_block : Type := mkBlock {
  blk_number : Z;
  blk_name : option string;
  blk_floor : pyfloat;
  blk_supply : option Z;
  blk_volume : pyfloat;
  blk_last_sale : option pyfloat
}.

(** What a command sends to the channel.  Embeds are kept structured: the
    rendering of a float into text is left to the chat library. *)
Inductive message : Type :=
| ErrorEmbed (text : string)
| SuccessEmbed (text : string)
| FloorEmbed (author : option string) (price : pyfloat)
| ReportEmbed (description : list report_block).

(** A row of the [policies] table. *)
Definition row : Type := (Z * string)%type.

(** What the commands act on: the table in row order, the requests made so
    far, and the messages sent so far. *)
Record world : Type := mkWorld {
  table : list row;
  requests : list request;
  sent : list message
}.

Inductive outcome (A : Type) : Type :=
| Return (a : A)
| Raise (e : exn).
Arguments Return {A} a.
Arguments Raise {A} e.

(** A computation: it ends by returning or by raising, and the state it
    reached is kept either way. *)
Definition M (A : Type) : Type := world -> outcome A * world.

Definition ret {A} (a : A) : M A := fun w => (Return a, w).
Definition raise {A} (e : exn) : M A := fun w => (Raise e, w).

Definition bind {A B} (m : M A) (k : A -> M B) : M B :=
  fun w =>
    match m w with
    | (Return a, w') => k a w'
    | (Raise e, w') => (Raise e, w')
    end.

(** [try: x = m / except ...: handler / (rest) k x]. *)
Definition try_except {A B} (m : M A) (handler : exn -> M B) (k : A -> M B) : M B :=
  fun w =>
    match m w with
    | (Return a, w') => k a w'
    | (Raise e, w') => handler e w'
    end.

Notation "x <- m ;; k" := (bind m (fun x => k))
  (at level 61, m at next level, right associativity).
Notation "m ;;; k" := (bind m (fun _ => k))
  (at level 61, right associativity).

(** The state after one more message, and after one more request. *)
Definition posted (w : world) (msg : message) : world :=
  mkWorld (table w) (requests w) (sent w ++ [msg])%list.
Definition logged (w : world) (req : request) : world :=
  mkWorld (table w) (requests w ++ [req])%list (sent w).

Definition after_requests (w : world) (reqs : list request) : world :=
  mkWorld (table w) (requests w ++ reqs)%list (sent w).

Definition send (msg : message) : M unit := fun w => (Return tt, posted w msg).

Definition error_embed (text : string) : M unit := send (ErrorEmbed text).
Definition success_embed (text : string) : M unit := send (SuccessEmbed text).

(** *** Reading replies *)

(** [d.get(key)]. *)
Definition get {A} (f : field A) : option A :=
  match f with
  | Val a => Some a
  | _ => None
  end.

(** [d[key]]. *)
Definition subscript {A} (key : string) (f : field A) : M (option A) :=
  match f with
  | Missing => raise (KeyError key)
  | Null => ret None
  | Val a => ret (Some a)
  end.

(** [a / b] on integers, with Python's exceptions. *)
Definition truediv (a b : Z) : M pyfloat :=
  match int_truediv a b with
  | Quotient x => ret x
  | DivisionByZero => raise (ZeroDivisionError "division by zero")
  | DivisionOverflow =>
      raise (OverflowError "integer division result too large for a float")
  end.

(** [x / b] where [x] came out of a JSON object. *)
Definition json_truediv (x : option Z) (b : Z) : M pyfloat :=
  match x with
  | Some a => truediv a b
  | None => raise (TypeError "unsupported operand type(s) for /: 'NoneType' and 'int'")
  end.

(** [int(x)] where [x] came out of a JSON object. *)
Definition json_int (x : option Z) : M Z :=
  match x with
  | Some a => ret a
  | None =>
      raise (TypeError
        "int() argument must be a string, a bytes-like object or a real number, not 'NoneType'")
  end.

(** [round(x, ndigits)], with CPython's error for a result that is not
    finite. *)
Definition round_float (x : pyfloat) (ndigits : Z) : M pyfloat :=
  match py_round x ndigits with
  | Some y => ret y
  | None => raise (OverflowError "rounded value too large to represent")
  end.

Section Commands.

(** The two upstream services, as the process meets them. *)
Variable server : service.

(** [bot.session.get(url, params=...)]: the request is logged, then the
    service answers or the call raises. *)
Definition session_get (req : request) : M response :=
  fun w =>
    match server (requests w) req with
    | Reply r => (Return r, logged w req)
    | Failed text => (Raise (ClientError text), logged w req)
    end.

(** [await resp.json()]. *)
Definition json (resp : response) : M body :=
  match payload resp with
  | inr data => ret data
  | inl text => raise (ClientError text)
  end.

Definition BASE_URL : string := "https://server.jpgstoreapis.com ".

(** *** [Collection] methods *)

Definition floor_request (self : Collection) : request :=
  mkRequest (BASE_URL ++ "/collection/" ++ fmt (name self) ++ "/floor") [].

Definition fetch_floor_price (self : Collection) : M (option pyfloat) :=
  resp <- session_get (floor_request self) ;;
  if status resp =? 404 then ret None
  else if negb (status resp =? 200) then raise FetchingException
  else
    data <- json resp ;;
    floor_price_unprocessed <- subscript "floor" (j_floor data) ;;
    match floor_price_unprocessed with
    | None => ret None
    | Some n => x <- truediv n 1000000 ;; ret (Some x)
    end.

Definition last_sale_request (self : Collection) : request :=
  mkRequest
    (BASE_URL ++ "/collection/" ++ fmt (policy_id self) ++ "/transactions?page=1&count=1") [].

Definition fetch_last_sale (self : Collection) : M (option pyfloat) :=
  resp <- session_get (last_sale_request self) ;;
  if status resp =? 404 then ret None
  else if negb (status resp =? 200) then raise FetchingException
  else
    data <- json resp ;;
    match get (j_transactions data) with
    | None => ret None
    | Some [] => ret None
    | Some (first :: _) =>
        amount <- subscript "amount_lovelace" (amount_lovelace first) ;;
        n <- json_int amount ;;
        x <- truediv n 1000000 ;;
        ret (Some x)
    end.

Definition policy_url (policy : string) : string :=
  "https://api.opencnft.io/1/policy/" ++ policy.

Definition image_request (self : Collection) : request :=
  mkRequest (policy_url (fmt (policy_id self))) [].

Definition fetch_image_url (self : Collection) : M (option string) :=
  resp <- session_get (image_request self) ;;
  if status resp =? 404 then ret None
  else if negb (status resp =? 200) then raise FetchingException
  else
    data <- json resp ;;
    let thumbnail := get (j_thumbnail data) in
    if falsy thumbnail then ret None
    else
      let t := fmt thumbnail in
      if negb (contains slash t) then ret None
      else ret (Some ("https://ipfs.io/ipfs/" ++ last_piece (split slash t))).

(** *** [fetch_collections] *)

Definition search_request (collection_name : string) (amount : Z) : request :=
  mkRequest (BASE_URL ++ "/search/collections")
    [("nameQuery", PStr collection_name);
     ("verified", PStr "should-be-verified");
     ("size", PInt amount)].

Definition collection_of_hit (h : hit) : Collection :=
  mkCollection (get (hit_url h)) (get (hit_display_name h)) (get (hit_policy_id h)).

Definition fetch_collections (collection_name : string) (amount : Z) : M (list Collection) :=
  resp <- session_get (search_request collection_name amount) ;;
  if status resp =? 404 then ret []
  else if negb (status resp =? 200) then raise FetchingException
  else
    data <- json resp ;;
    match get (j_collections data) with
    | None => ret []
    | Some hits => ret (map collection_of_hit hits)
    end.

(** *** The [floor] command *)

(** One turn of the loop over the search hits. *)
Definition floor_step (collection : Collection) : M unit :=
  try_except (fetch_floor_price collection)
    (fun e =>
       if is_fetching e then
         error_embed ("There was an error when fetching the floor price for the "
                      ++ fmt (display_name collection) ++ " collection!")
       else raise e)
    (fun floor_price =>
       match floor_price with
       | None =>
           error_embed ("Couldn't find the floor price for the "
                        ++ fmt (display_name collection) ++ " collection!")
       | Some price => send (FloorEmbed (display_name collection) price)
       end).

Fixpoint floor_loop (collections : list Collection) : M unit :=
  match collections with
  | [] => ret tt
  | collection :: rest => floor_step collection ;;; floor_loop rest
  end.

Definition not_found_text (collection : string) : string :=
  "Couldn't find any collections named " ++ dquote ++ "**" ++ collection ++ "**" ++ dquote ++ "!".

Definition floor (collection : string) : M unit :=
  try_except (fetch_collections collection 5)
    (fun e =>
       if is_fetching e then
         error_embed "There was an error when fetching the collections!"
       else
         error_embed ("There was an unexpected error when fetching the collections:"
                      ++ newline ++ exn_str e))
    (fun collections =>
       match collections with
       | [] => error_embed (not_found_text collection)
       | _ :: _ => floor_loop collections
       end).

(** *** The store *)

Definition same_row (guild_id : Z) (policy : string) (r : row) : bool :=
  (fst r =? guild_id) && String.eqb (snd r) policy.

(** [SELECT EXISTS(SELECT 1 FROM policies WHERE guild_id = ? AND policy_id = ?)]. *)
Definition policy_id_exists (guild_id : Z) (policy : string) : M bool :=
  fun w => (Return (existsb (same_row guild_id policy) (table w)), w).

(** [SELECT policy_id FROM policies WHERE guild_id = ?], in row order. *)
Definition get_policy_ids (guild_id : Z) : M (list string) :=
  fun w => (Return (map snd (filter (fun r => fst r =? guild_id) (table w))), w).

(** [INSERT INTO policies VALUES (?, ?)] and the commit. *)
Definition execute_insert (guild_id : Z) (policy : string) : M unit :=
  fun w => (Return tt, mkWorld (table w ++ [(guild_id, policy)])%list (requests w) (sent w)).

(** [DELETE FROM policies WHERE guild_id = ? AND policy_id = ?] and the commit. *)
Definition execute_delete (guild_id : Z) (policy : string) : M unit :=
  fun w =>
    (Return tt,
     mkWorld (filter (fun r => negb (same_row guild_id policy r)) (table w))
             (requests w) (sent w)).

(** *** The [pass] command *)

(** [x / 1000000]: minor units to major units. *)
Definition to_major (raw : option Z) : M pyfloat := json_truediv raw 1000000.

(** [round(x / 1000000, 1)]. *)
Definition volume_of (raw : option Z) : M pyfloat :=
  major <- to_major raw ;;
  round_float major 1.

Definition empty_list_text : string :=
  "The list of policy ids is empty. Use the !insert command to add some.".

(** The loop over [enumerate(policy_ids)], from [index] on; [description]
    holds the blocks written so far. *)
Fixpoint pass_loop (index : Z) (policy_ids : list string)
    (description : list report_block) : M (list report_block) :=
  match policy_ids with
  | [] => ret description
  | policy :: rest =>
      collections <- fetch_collections policy 1 ;;
      match collections with
      | [] => pass_loop (index + 1) rest description
      | collection :: _ =>
          resp <- session_get (mkRequest (policy_url policy) []) ;;
          if status resp =? 404 then pass_loop (index + 1) rest description
          else if negb (status resp =? 200) then pass_loop (index + 1) rest description
          else
            data <- json resp ;;
            raw_floor <- subscript "floor_price" (j_floor_price data) ;;
            floor_price <- to_major raw_floor ;;
            supply <- subscript "asset_minted" (j_asset_minted data) ;;
            raw_volume <- subscript "total_volume" (j_total_volume data) ;;
            volume <- volume_of raw_volume ;;
            last_sale <- fetch_last_sale collection ;;
            pass_loop (index + 1) rest
              (description ++
               [mkBlock (index + 1) (display_name collection) floor_price supply
                        volume last_sale])%list
      end
  end.

Definition _pass (guild_id : Z) : M unit :=
  policy_ids <- get_policy_ids guild_id ;;
  match policy_ids with
  | [] => error_embed empty_list_text
  | _ :: _ =>
      description <- pass_loop 0 policy_ids [] ;;
      send (ReportEmbed description)
  end.

(** *** The [insert] and [remove] commands *)

Definition insert (guild_id : Z) (policy : string) : M unit :=
  found <- policy_id_exists guild_id policy ;;
  if found then error_embed "This policy id is already added!"
  else
    try_except (fetch_collections policy 1)
      (fun e =>
         if is_fetching e then
           error_embed "There was an error when fetching the collection!"
         else
           error_embed ("There was an unexpected error when fetching the collection:"
                        ++ newline ++ exn_str e))
      (fun collections =>
         match collections with
         | [] => error_embed "This doesn't seem to be a valid policy id!"
         | first :: _ =>
             execute_insert guild_id policy ;;;
             success_embed ("Successfully added **" ++ fmt (display_name first)
                            ++ "** to the list!")
         end).

Definition remove (guild_id : Z) (policy : string) : M unit :=
  found <- policy_id_exists guild_id policy ;;
  if negb found then error_embed "This policy id is not added!"
  else
    execute_delete guild_id policy ;;;
    success_embed ("Successfully removed **" ++ policy
                   ++ "** from the list of policy ids!").

End Commands.

End Bot.

(* ================================================================== *)
(** ** Sample services and states *)
(* ================================================================== *)

Module Samples.

Import PyFloat PyStr Upstream Bot.
Open Scope string_scope.
Open Scope Z_scope.

Definition ok (data : body) : http_result := Reply (mkResponse 200 (inr data)).
Definition bare (code : Z) : http_result := Reply (mkResponse code (inl EmptyString)).

(** A service that answers by URL alone; an unknown URL is a 404. *)
Fixpoint answer (script : list (string * http_result)) (u : string) : http_result :=
  match script with
  | [] => bare 404
  | (u', r) :: rest => if String.eqb u' u then r else answer rest u
  end.

(** A service that answers a search by its [nameQuery] and everything else by
    URL. *)
Definition scripted (searches : list (string * http_result))
    (script : list (string * http_result)) : service :=
  fun _ req =>
    match params req with
    | ("nameQuery", PStr q) :: _ => answer searches q
    | _ => answer script (url req)
    end.

Definition start (rows : list row) : world := mkWorld rows [] [].

Definition with_hits (hits : list hit) : body :=
  mkBody (Val hits) Missing Missing Missing Missing Missing Missing.
Definition with_floor (f : field Z) : body :=
  mkBody Missing f Missing Missing Missing Missing Missing.
Definition with_thumbnail (t : field string) : body :=
  mkBody Missing Missing Missing t Missing Missing Missing.
Definition with_metrics (fp supply volume : Z) : body :=
  mkBody Missing Missing Missing Missing (Val fp) (Val supply) (Val volume).
Definition with_sale (amount : Z) : body :=
  mkBody Missing Missing (Val [mkTxn (Val amount)]) Missing Missing Missing Missing.

Definition hit_of (u display policy : string) : hit :=
  mkHit (Val u) (Val display) (Val policy).

Definition alpha : Collection := mkCollection (Some "alpha") (Some "Alpha") (Some "pa").
Definition beta : Collection := mkCollection (Some "beta") (Some "Beta") (Some "pb").

Definition two_hits : http_result :=
  ok (with_hits [hit_of "alpha" "Alpha" "pa"; hit_of "beta" "Beta" "pb"]).

(** Every URL is a 404. *)
Definition nowhere : service := scripted [] [].

(** The search finds two collections; the floor read of the first lacks the
    [floor] key, the second has a floor of 5000000. *)
Definition missing_floor : service :=
  scripted [("x", two_hits)]
    [(url (floor_request alpha), ok (with_floor Missing));
     (url (floor_request beta), ok (with_floor (Val 5000000)))].

(** As above, but the floor read of the first meets a transport failure. *)
Definition dropped_floor : service :=
  scripted [("x", two_hits)]
    [(url (floor_request alpha), Failed "Server disconnected");
     (url (floor_request beta), ok (with_floor (Val 5000000)))].

(** As above, but the floor of the first is an integer whose quotient by
    10^6 is beyond the largest float. *)
Definition huge_floor : service :=
  scripted [("x", two_hits)]
    [(url (floor_request alpha), ok (with_floor (Val (10 ^ 320))));
     (url (floor_request beta), ok (with_floor (Val 5000000)))].

(** As above, but the floor read of the first is answered with 500. *)
Definition one_failing : service :=
  scripted [("x", two_hits)]
    [(url (floor_request alpha), bare 500);
     (url (floor_request beta), ok (with_floor (Val 5000000)))].

(** The floor read is answered with 201 and a well-formed body. *)
Definition created : service :=
  scripted []
    [(url (floor_request alpha), Reply (mkResponse 201 (inr (with_floor (Val 5000000)))))].

Definition floor_known : service :=
  scripted [] [(url (floor_request alpha), ok (with_floor (Val 5000000)))].

Definition with_image : service :=
  scripted [] [(policy_url "pa", ok (with_thumbnail (Val "ipfs/abc123")))].

Definition gamma : Collection := mkCollection (Some "gamma") (Some "Gamma") (Some "p2").

(** The search for [p1] is answered with 500; [p2] resolves and has metrics
    and a last sale. *)
Definition search_down : service :=
  scripted [("p1", bare 500); ("p2", ok (with_hits [hit_of "gamma" "Gamma" "p2"]))]
    [(policy_url "p2", ok (with_metrics 5000000 100 1234567));
     (url (last_sale_request gamma), ok (with_sale 7000000))].

End Samples.

(* ================================================================== *)
(** ** What the statements speak about *)
(* ================================================================== *)

Module Observations.

Import PyFloat PyStr Upstream Bot.
Open Scope string_scope.
Open Scope Z_scope.

(** The search found nothing: the 404 reply, or a 200 reply whose
    [collections] is missing, null or empty. *)
Definition zero_hits (resp : response) : Prop :=
  status resp = 404 \/
  (status resp = 200 /\
   exists data, payload resp = inr data /\
     (get (j_collections data) = None \/ get (j_collections data) = Some [])).

(** The fetch returned, or raised the exception the loops catch. *)
Definition handled {A} (o : outcome A) : Prop :=
  match o with
  | Return _ => True
  | Raise e => is_fetching e = true
  end.

(** The message a candidate of the floor lookup gets for the outcome of its
    fetch: its record for a price, an error entry for no price or a raise. *)
Definition floor_entry (c : Collection) (o : outcome (option pyfloat)) : message :=
  match o with
  | Return (Some price) => FloorEmbed (display_name c) price
  | Return None =>
      ErrorEmbed ("Couldn't find the floor price for the "
                  ++ fmt (display_name c) ++ " collection!")
  | Raise _ =>
      ErrorEmbed ("There was an error when fetching the floor price for the "
                  ++ fmt (display_name c) ++ " collection!")
  end.

Definition is_error_entry (msg : message) : bool :=
  match msg with
  | ErrorEmbed _ => true
  | _ => false
  end.

(** The command reported success: its one message is a success embed. *)
Definition succeeded (before after : world) : Prop :=
  exists text, sent after = (sent before ++ [SuccessEmbed text])%list.

(** [exists(server, policy)] and [list(server)] as values of a state. *)
Definition tracked (guild_id : Z) (policy : string) (w : world) : bool :=
  existsb (same_row guild_id policy) (table w).

Definition listing (guild_id : Z) (w : world) : list string :=
  map snd (filter (fun r => fst r =? guild_id) (table w)).

(** The floats [5.0] and [1.2]. *)
Definition five : pyfloat := mkFloat false 5629499534213120 (-50).
Definition one_point_two : pyfloat := mkFloat false 5404319552844595 (-52).

Definition gateway : string := "https://ipfs.io/ipfs/".

(** A computation that leaves a part of the state ([table], [requests] or
    [sent]) as it found it. *)
Definition keeps {A X} (part : world -> X) (m : M A) : Prop :=
  forall w, part (snd (m w)) = part w.

(** The commands a server can send, and the bot serving them one after the
    other: a command that raises ends there, and the next one runs on the
    state it left. *)
Inductive command : Type :=
| CmdFloor (collection : string)
| CmdPass (guild_id : Z)
| CmdInsert (guild_id : Z) (policy : string)
| CmdRemove (guild_id : Z) (policy : string).

Definition run_command (server : service) (c : command) : M unit :=
  match c with
  | CmdFloor collection => floor server collection
  | CmdPass guild_id => _pass server guild_id
  | CmdInsert guild_id policy => insert server guild_id policy
  | CmdRemove guild_id policy => remove guild_id policy
  end.

Fixpoint serve (server : service) (cs : list command) (w : world) : world :=
  match cs with
  | [] => w
  | c :: rest => serve server rest (snd (run_command server c w))
  end.

End Observations.

(* ================================================================== *)
(** ** Measures of a run *)
(* ================================================================== *)

Module Measures.

Import PyFloat PyStr Upstream Bot Observations.
Open Scope string_scope.
Open Scope Z_scope.

(** A computation that only appends to the request log, at most [n]
    requests, whether it returns or raises. *)
Definition grows_by {A} (n : nat) (m : M A) : Prop :=
  forall w, exists extra,
    requests (snd (m w)) = (requests w ++ extra)%list /\ (List.length extra <= n)%nat.

(** The numbers of the blocks of a report, in the order of the report. *)
Definition numbers (blocks : list report_block) : list Z := map blk_number blocks.

(** The search requests the report command makes for a list of policy ids. *)
Definition searches (policy_ids : list string) : list request :=
  map (fun policy => search_request policy 1) policy_ids.

(** The service answers every search for one of these ids, at any time, with
    a reply that has no hit. *)
Definition never_resolve (server : service) (policy_ids : list string) : Prop :=
  forall log policy, In policy policy_ids ->
    exists resp, server log (search_request policy 1) = Reply resp /\ zero_hits resp.

End Measures.

(* ================================================================== *)
(** ** More sample services *)
(* ================================================================== *)

Module MoreSamples.

Import PyFloat PyStr Upstream Bot Samples.
Open Scope string_scope.
Open Scope Z_scope.

Definition one_hit : http_result := ok (with_hits [hit_of "gamma" "Gamma" "p2"]).

(** [p2] resolves and has its metrics, but no last sale is known: the
    transactions endpoint is a 404. *)
Definition sale_unknown : service :=
  scripted [("p2", one_hit)]
    [(policy_url "p2", ok (with_metrics 5000000 100 1234567))].

(** [p2] resolves, but the body of its composite read has none of the
    metrics. *)
Definition metrics_blank : service :=
  scripted [("p2", one_hit)] [(policy_url "p2", ok (with_floor Missing))].

(** Two transactions, the second without an amount. *)
Definition two_sales : body :=
  mkBody Missing Missing (Val [mkTxn (Val 7000000); mkTxn Missing])
         Missing Missing Missing Missing.

Definition sold_twice : service :=
  scripted [] [(url (last_sale_request gamma), ok two_sales)].

(** The search meets a transport failure. *)
Definition dropped_search : service :=
  scripted [("x", Failed "Server disconnected")] [].

(** The image read is answered with 404 and a body that does not parse. *)
Definition image_gone : service :=
  scripted [] [(policy_url "pa", Reply (mkResponse 404 (inl "<html>")))].

(** A thumbnail that ends with the separator. *)
Definition image_bare : service :=
  scripted [] [(policy_url "pa", ok (with_thumbnail (Val "ipfs/")))].

End MoreSamples.

(* ================================================================== *)
(** ** Commands in flight *)
(* ================================================================== *)

Module Flights.

Import PyStr Upstream Bot Samples.
Open Scope string_scope.
Open Scope Z_scope.

(** Where a running [insert] stands.  The coroutine gives way to the other
    tasks of the event loop at its awaits: it can be overtaken after the
    pre-check, while it waits for the search, and after the search, while it
    waits for the INSERT. *)
Inductive stage : Type :=
| AtCheck
| AtSearch
| AtWrite (first : Collection)
| Finished.

Section Stages.

Variable server : service.
Variable guild_id : Z.
Variable policy : string.

(** The stretch of [insert] from one stage to the next. *)
Definition advance (st : stage) : M stage :=
  match st with
  | AtCheck =>
      found <- policy_id_exists guild_id policy ;;
      if found then error_embed "This policy id is already added!" ;;; ret Finished
      else ret AtSearch
  | AtSearch =>
      try_except (fetch_collections server policy 1)
        (fun e =>
           (if is_fetching e then
              error_embed "There was an error when fetching the collection!"
            else
              error_embed ("There was an unexpected error when fetching the collection:"
                           ++ newline ++ exn_str e)) ;;;
           ret Finished)
        (fun collections =>
           match collections with
           | [] => error_embed "This doesn't seem to be a valid policy id!" ;;; ret Finished
           | first :: _ => ret (AtWrite first)
           end)
  | AtWrite first =>
      execute_insert guild_id policy ;;;
      success_embed ("Successfully added **" ++ fmt (display_name first)
                     ++ "** to the list!") ;;;
      ret Finished
  | Finished => ret Finished
  end.

(** The whole command, stage after stage with nothing in between. *)
Definition insert_staged : M unit :=
  st1 <- advance AtCheck ;;
  st2 <- advance st1 ;;
  advance st2 ;;;
  ret tt.

End Stages.

(** An [insert] invocation in flight. *)
Record flight : Type := mkFlight {
  fl_guild : Z;
  fl_policy : string;
  fl_stage : stage
}.

Definition launch (guild_id : Z) (policy : string) : flight :=
  mkFlight guild_id policy AtCheck.

Definition step_flight (server : service) (f : flight) (w : world) : flight * world :=
  match advance server (fl_guild f) (fl_policy f) (fl_stage f) w with
  | (Return st, w') => (mkFlight (fl_guild f) (fl_policy f) st, w')
  | (Raise _, w') => (mkFlight (fl_guild f) (fl_policy f) Finished, w')
  end.

(** Two invocations in flight on one event loop: the schedule says which of
    the two runs its next stretch. *)
Inductive turn : Type := FirstRuns | SecondRuns.

Fixpoint interleave (server : service) (schedule : list turn) (a b : flight)
    (w : world) : flight * flight * world :=
  match schedule with
  | [] => (a, b, w)
  | FirstRuns :: rest =>
      let '(a', w') := step_flight server a w in interleave server rest a' b w'
  | SecondRuns :: rest =>
      let '(b', w') := step_flight server b w in interleave server rest a b' w'
  end.

(** The first invocation runs to its end before the second starts. *)
Definition in_turn : list turn :=
  [FirstRuns; FirstRuns; FirstRuns; SecondRuns; SecondRuns; SecondRuns].

(** Both invocations make their pre-check before either has written. *)
Definition overtaking : list turn :=
  [FirstRuns; SecondRuns; FirstRuns; FirstRuns; SecondRuns; SecondRuns].

(** Two tracks of the pair [(1, p2)] on the empty table, the second
    overtaking the first. *)
Definition racing_tracks : flight * flight * world :=
  interleave search_down overtaking (launch 1 "p2") (launch 1 "p2") (start []).

End Flights.

(* ================================================================== *)
(** ** Properties *)
(* ================================================================== *)

Import PyFloat PyStr Upstream Bot Samples Observations.
Open Scope string_scope.
Open Scope Z_scope.

(** Case analysis on a status the way the fetchers test it: 404 first, then
    200, then the rest. *)
Ltac by_status resp :=
  let E404 := fresh "E404" in
  let E200 := fresh "E200" in
  destruct (status resp =? 404) eqn:E404;
  [ apply Z.eqb_eq in E404
  | apply Z.eqb_neq in E404;
    destruct (status resp =? 200) eqn:E200;
    [ apply Z.eqb_eq in E200 | apply Z.eqb_neq in E200 ] ];
  simpl.

(** Runs the computation a goal about the report loop is waiting for, in
    both of its outcomes. *)
Ltac run_next :=
  match goal with
  | |- context [fetch_collections ?s ?q ?a ?w] =>
      destruct (fetch_collections s q a w) as [[[| ? ?] | ?] ?]
  | |- context [session_get ?s ?r ?w] => destruct (session_get s r w) as [[? | ?] ?]
  | |- context [json ?r ?w] => destruct (json r w) as [[? | ?] ?]
  | |- context [subscript ?k ?f ?w] => destruct (subscript k f w) as [[? | ?] ?]
  | |- context [to_major ?x ?w] => destruct (to_major x w) as [[? | ?] ?]
  | |- context [volume_of ?x ?w] => destruct (volume_of x w) as [[? | ?] ?]
  | |- context [fetch_last_sale ?s ?c ?w] => destruct (fetch_last_sale s c w) as [[? | ?] ?]
  | |- context [if ?b then _ else _] => destruct b
  end; cbn beta iota.

(** *** Rounding to binary64 *)

Section Rounding.

(** [round_half_even] picks a nearest integer: the distance to [n / d] is at
    most one half. *)
Lemma round_half_even_nearest (n d : Z) :
  0 <= n -> 0 < d -> 2 * Z.abs (round_half_even n d * d - n) <= d.
Proof.
  intros Hn Hd. unfold round_half_even.
  pose proof (Z.div_mod n d ltac:(lia)) as Hdm.
  pose proof (Z.mod_pos_bound n d Hd) as Hr.
  destruct (Z.compare_spec (2 * (n mod d)) d) as [He | Hl | Hg].
  - destruct (Z.even (n / d)); nia.
  - nia.
  - nia.
Qed.

(** It lies between the floor and the ceiling of [n / d]. *)
Lemma round_half_even_bounds (n d : Z) :
  0 <= n -> 0 < d -> n / d <= round_half_even n d <= n / d + 1.
Proof.
  intros Hn Hd. unfold round_half_even.
  destruct (2 * (n mod d) ?= d); [destruct (Z.even (n / d))| |]; lia.
Qed.


(** The float [round_b64] returns is within half a unit in its last place
    of [n / d]. *)
Lemma round_b64_half_ulp (neg : bool) (n d : Z) (x : pyfloat) :
  0 < n -> 0 < d ->
  round_b64 neg n d = Some x ->
  (0 <= fexp x -> 2 * Z.abs (fmant x * 2 ^ fexp x * d - n) <= d * 2 ^ fexp x) /\
  (fexp x < 0 -> 2 * Z.abs (fmant x * d - n * 2 ^ (- fexp x)) <= d).
Proof.
  intros Hn Hd. unfold round_b64.
  destruct (n =? 0) eqn:En; [apply Z.eqb_eq in En; lia|].
  set (e := binade n d).
  assert (Hm : (0 <= e -> 2 * Z.abs (scaled_round n d e * 2 ^ e * d - n) <= d * 2 ^ e) /\
               (e < 0 -> 2 * Z.abs (scaled_round n d e * d - n * 2 ^ (- e)) <= d)).
  { unfold scaled_round. split; intros He.
    - destruct (0 <=? e) eqn:E0; [|apply Z.leb_gt in E0; lia].
      assert (0 < 2 ^ e) by (apply Z.pow_pos_nonneg; lia).
      pose proof (round_half_even_nearest n (d * 2 ^ e) ltac:(lia) ltac:(nia)). nia.
    - destruct (0 <=? e) eqn:E0; [apply Z.leb_le in E0; lia|].
      assert (0 < 2 ^ (- e)) by (apply Z.pow_pos_nonneg; lia).
      apply (round_half_even_nearest (n * 2 ^ (- e)) d); nia. }
  destruct (scaled_round n d e =? 2 ^ prec) eqn:Em.
  - apply Z.eqb_eq in Em. rewrite Em in Hm.
    destruct (emax <? e + 1) eqn:Eo; [discriminate|].
    intros [= <-]. cbn [fmant fexp].
    change (2 ^ prec) with (2 * 4503599627370496) in Hm.
    change (2 ^ (prec - 1)) with 4503599627370496.
    destruct Hm as [Hpos Hneg].
    split; intros He.
    + destruct (Z.eq_dec e (-1)) as [-> | Hne].
      * specialize (Hneg ltac:(lia)).
        change (- -1) with 1 in Hneg. change (2 ^ 1) with 2 in Hneg.
        change (-1 + 1) with 0. change (2 ^ 0) with 1. lia.
      * specialize (Hpos ltac:(lia)).
        rewrite Z.pow_add_r by lia. change (2 ^ 1) with 2.
        replace (4503599627370496 * (2 ^ e * 2) * d)
          with (2 * 4503599627370496 * 2 ^ e * d) by ring.
        lia.
    + specialize (Hneg ltac:(lia)).
      replace (- e) with (Z.succ (- (e + 1))) in Hneg by lia.
      rewrite Z.pow_succ_r in Hneg by lia. lia.
  - destruct (emax <? e) eqn:Eo; [discriminate|].
    intros [= <-]. exact Hm.
Qed.

(** Amounts below [2^1000] in absolute value never overflow on the division
    by [10^6]. *)
Lemma binade_le (n d : Z) :
  binade n d <= Z.max (Z.log2 n - Z.log2 d - (prec - 1)) emin.
Proof.
  unfold binade.
  destruct (if 0 <=? Z.log2 n - Z.log2 d then _ else _); lia.
Qed.

Lemma binade_ge (n d : Z) :
  Z.log2 n - Z.log2 d - prec <= binade n d.
Proof.
  unfold binade, prec.
  destruct (if 0 <=? Z.log2 n - Z.log2 d then _ else _); lia.
Qed.

(** The exponent of the rounded quotient is the binade, or one more when the
    mantissa rounds up to [2^53]. *)
Lemma round_b64_exponent (neg : bool) (n d : Z) (x : pyfloat) :
  0 < n ->
  round_b64 neg n d = Some x ->
  binade n d <= fexp x <= binade n d + 1.
Proof.
  intros Hn. unfold round_b64.
  destruct (n =? 0) eqn:En; [apply Z.eqb_eq in En; lia|].
  destruct (scaled_round n d (binade n d) =? 2 ^ prec).
  - destruct (emax <? binade n d + 1); [discriminate|].
    intros [= <-]. cbn [fexp]. lia.
  - destruct (emax <? binade n d); [discriminate|].
    intros [= <-]. cbn [fexp]. lia.
Qed.

Lemma truediv_million_total (n : Z) :
  Z.abs n < 2 ^ 1000 -> exists x, int_truediv n 1000000 = Quotient x.
Proof.
  intros Hn. unfold int_truediv. simpl (1000000 =? 0). cbv iota.
  unfold round_b64. change (Z.abs 1000000) with 1000000.
  destruct (Z.abs n =? 0) eqn:E0; [eexists; reflexivity|].
  apply Z.eqb_neq in E0.
  pose proof (binade_le (Z.abs n) 1000000) as Hb.
  assert (Hlog : Z.log2 (Z.abs n) < 1000) by (apply Z.log2_lt_pow2; lia).
  change (Z.log2 1000000) with 19 in Hb. unfold prec, emin in Hb.
  destruct (scaled_round _ _ _ =? 2 ^ prec).
  - destruct (emax <? _) eqn:Eo; [|eexists; reflexivity].
    apply Z.ltb_lt in Eo. unfold emax in Eo. lia.
  - destruct (emax <? _) eqn:Eo; [|eexists; reflexivity].
    apply Z.ltb_lt in Eo. unfold emax in Eo. lia.
Qed.


Lemma pow2_pos (a : Z) : 0 <= a -> 0 < 2 ^ a.
Proof. intros. apply Z.pow_pos_nonneg; lia. Qed.

Lemma pow2_split (a b : Z) : 0 <= a -> 0 <= b -> 2 ^ (a + b) = 2 ^ a * 2 ^ b.
Proof. intros. now apply Z.pow_add_r. Qed.

Lemma below_mono (n d e e' B : Z) :
  0 <= n -> 0 < d -> 0 < B -> e <= e' -> below n d e B -> below n d e' B.
Proof.
  intros Hn Hd HB Hle [Hpos Hneg]. split; intros He'.
  - destruct (Z.le_gt_cases 0 e) as [He | He].
    + specialize (Hpos He).
      replace e' with (e + (e' - e)) by lia. rewrite pow2_split by lia.
      pose proof (pow2_pos e He). pose proof (pow2_pos (e' - e) ltac:(lia)). nia.
    + specialize (Hneg He).
      pose proof (pow2_pos (- e) ltac:(lia)). pose proof (pow2_pos e' He'). nia.
  - specialize (Hneg ltac:(lia)).
    replace (- e) with (- e' + (e' - e)) in Hneg by lia.
    rewrite pow2_split in Hneg by lia.
    pose proof (pow2_pos (- e') ltac:(lia)). pose proof (pow2_pos (e' - e) ltac:(lia)). nia.
Qed.

(** From [n / d < 2^k] to [n / (d * 2^(k - 53)) < 2^53]. *)
Lemma below_shift (n d k : Z) :
  0 <= n -> 0 < d -> below n d k 1 -> below n d (k - prec) (2 ^ prec).
Proof.
  unfold prec. intros Hn Hd [Hpos Hneg]. split; intros He.
  - specialize (Hpos ltac:(lia)).
    replace k with (k - 53 + 53) in Hpos by lia. rewrite pow2_split in Hpos by lia. lia.
  - destruct (Z.le_gt_cases 0 k) as [Hk | Hk].
    + specialize (Hpos Hk).
      assert (H53 : 2 ^ 53 = 2 ^ k * 2 ^ (- (k - 53))).
      { rewrite <- pow2_split by lia. f_equal. lia. }
      rewrite H53. pose proof (pow2_pos (- (k - 53)) ltac:(lia)). nia.
    + specialize (Hneg Hk).
      replace (- (k - 53)) with (- k + 53) by lia. rewrite pow2_split by lia.
      pose proof (pow2_pos 53 ltac:(lia)). nia.
Qed.

Lemma log2_below (n d : Z) :
  0 < n -> 0 < d -> below n d (Z.log2 n - Z.log2 d + 1) 1.
Proof.
  intros Hn Hd.
  pose proof (Z.log2_spec n Hn) as [_ Hnu]. pose proof (Z.log2_spec d Hd) as [Hdl _].
  pose proof (Z.log2_nonneg n) as Hln. pose proof (Z.log2_nonneg d) as Hld.
  rewrite <- Z.add_1_r in Hnu.
  split; intros He.
  - replace (Z.log2 n + 1) with (Z.log2 n - Z.log2 d + 1 + Z.log2 d) in Hnu by lia.
    rewrite pow2_split in Hnu by lia.
    pose proof (pow2_pos _ He). nia.
  - assert (Hs : 2 ^ Z.log2 d = 2 ^ (Z.log2 n + 1) * 2 ^ (- (Z.log2 n - Z.log2 d + 1))).
    { rewrite <- pow2_split by lia. f_equal. lia. }
    pose proof (pow2_pos (- (Z.log2 n - Z.log2 d + 1)) ltac:(lia)). nia.
Qed.

(** At its binade the scaled fraction is below [2^53]. *)
Lemma binade_below (n d : Z) :
  0 < n -> 0 < d -> below n d (binade n d) (2 ^ prec).
Proof.
  intros Hn Hd. unfold binade.
  set (k := Z.log2 n - Z.log2 d).
  apply (below_mono n d _ _ (2 ^ prec) ltac:(lia) Hd ltac:(reflexivity) (Z.le_max_l _ emin)).
  destruct (if 0 <=? k then d * 2 ^ k <=? n else d <=? n * 2 ^ (- k)) eqn:Habove.
  - replace (k - (prec - 1)) with (k + 1 - prec) by lia.
    apply below_shift; [lia | exact Hd |]. now apply log2_below.
  - apply below_shift; [lia | exact Hd |].
    split; intros Hk.
    + apply Z.leb_le in Hk. rewrite Hk in Habove. apply Z.leb_gt in Habove. lia.
    + apply Z.leb_gt in Hk. rewrite Hk in Habove. apply Z.leb_gt in Habove. lia.
Qed.

(** Every float [round_b64] returns is a binary64 value: a mantissa of at
    most 53 bits and an exponent in range. *)
Lemma round_b64_valid (neg : bool) (n d : Z) (x : pyfloat) :
  0 <= n -> 0 < d ->
  round_b64 neg n d = Some x ->
  0 <= fmant x < 2 ^ prec /\ emin <= fexp x <= emax /\ fneg x = neg.
Proof.
  intros Hn Hd. unfold round_b64.
  destruct (n =? 0) eqn:En.
  { intros [= <-]. simpl. unfold emin, emax. repeat split; lia. }
  apply Z.eqb_neq in En.
  pose proof (binade_below n d ltac:(lia) Hd) as [Hpos Hneg].
  assert (Hemin : emin <= binade n d) by (unfold binade; apply Z.le_max_r).
  assert (Hm : 0 <= scaled_round n d (binade n d) <= 2 ^ prec).
  { unfold scaled_round. destruct (0 <=? binade n d) eqn:E0.
    - apply Z.leb_le in E0. specialize (Hpos E0).
      pose proof (pow2_pos _ E0).
      pose proof (round_half_even_bounds n (d * 2 ^ binade n d) Hn ltac:(nia)) as Hb.
      assert (0 <= n / (d * 2 ^ binade n d)) by (apply Z.div_pos; nia).
      assert (n / (d * 2 ^ binade n d) < 2 ^ prec) by (apply Z.div_lt_upper_bound; nia).
      lia.
    - apply Z.leb_gt in E0. specialize (Hneg E0).
      pose proof (pow2_pos (- binade n d) ltac:(lia)).
      pose proof (round_half_even_bounds (n * 2 ^ (- binade n d)) d ltac:(nia) Hd) as Hb.
      assert (0 <= n * 2 ^ (- binade n d) / d) by (apply Z.div_pos; nia).
      assert (n * 2 ^ (- binade n d) / d < 2 ^ prec)
        by (apply Z.div_lt_upper_bound; nia).
      lia. }
  destruct (scaled_round n d (binade n d) =? 2 ^ prec) eqn:Em.
  - destruct (emax <? binade n d + 1) eqn:Eo; [discriminate|].
    apply Z.ltb_ge in Eo. intros [= <-]. cbn [fmant fexp fneg].
    unfold prec. change (2 ^ (53 - 1)) with 4503599627370496.
    change (2 ^ 53) with 9007199254740992. repeat split; lia.
  - destruct (emax <? binade n d) eqn:Eo; [discriminate|].
    apply Z.ltb_ge in Eo. apply Z.eqb_neq in Em. intros [= <-]. cbn [fmant fexp fneg].
    repeat split; lia.
Qed.


(** From [2^k <= n / d] to [2^52 <= n / (d * 2^(k - 52))]. *)
Lemma at_least_shift (n d k : Z) :
  0 <= n -> 0 < d -> at_least n d k 1 -> at_least n d (k - (prec - 1)) (2 ^ (prec - 1)).
Proof.
  unfold prec. change (53 - 1) with 52. intros Hn Hd [Hpos Hneg]. split; intros He.
  - specialize (Hpos ltac:(lia)).
    replace k with (k - 52 + 52) in Hpos by lia. rewrite pow2_split in Hpos by lia. lia.
  - destruct (Z.le_gt_cases 0 k) as [Hk | Hk].
    + specialize (Hpos Hk).
      assert (H52 : 2 ^ 52 = 2 ^ k * 2 ^ (- (k - 52))).
      { rewrite <- pow2_split by lia. f_equal. lia. }
      rewrite H52. pose proof (pow2_pos (- (k - 52)) ltac:(lia)). nia.
    + specialize (Hneg Hk).
      replace (- (k - 52)) with (- k + 52) by lia. rewrite pow2_split by lia.
      pose proof (pow2_pos 52 ltac:(lia)). nia.
Qed.

Lemma log2_at_least (n d : Z) :
  0 < n -> 0 < d -> at_least n d (Z.log2 n - Z.log2 d - 1) 1.
Proof.
  intros Hn Hd.
  pose proof (Z.log2_spec n Hn) as [Hnl _]. pose proof (Z.log2_spec d Hd) as [_ Hdu].
  pose proof (Z.log2_nonneg n) as Hln. pose proof (Z.log2_nonneg d) as Hld.
  rewrite <- Z.add_1_r in Hdu.
  split; intros He.
  - replace (Z.log2 n) with (Z.log2 n - Z.log2 d - 1 + (Z.log2 d + 1)) in Hnl at 1 by lia.
    rewrite pow2_split in Hnl by lia.
    pose proof (pow2_pos _ He). nia.
  - assert (Hs : 2 ^ (Z.log2 d + 1) = 2 ^ Z.log2 n * 2 ^ (- (Z.log2 n - Z.log2 d - 1))).
    { rewrite <- pow2_split by lia. f_equal. lia. }
    pose proof (pow2_pos (- (Z.log2 n - Z.log2 d - 1)) ltac:(lia)). nia.
Qed.

(** Above the subnormal exponent the scaled fraction is at least [2^52]. *)
Lemma binade_at_least (n d : Z) :
  0 < n -> 0 < d -> emin < binade n d ->
  at_least n d (binade n d) (2 ^ (prec - 1)).
Proof.
  intros Hn Hd. unfold binade.
  set (k := Z.log2 n - Z.log2 d).
  destruct (if 0 <=? k then d * 2 ^ k <=? n else d <=? n * 2 ^ (- k)) eqn:Habove;
    intros Hclamp; rewrite Z.max_l by lia.
  - apply at_least_shift; [lia | exact Hd |].
    split; intros Hk.
    + apply Z.leb_le in Hk. rewrite Hk in Habove. apply Z.leb_le in Habove. lia.
    + apply Z.leb_gt in Hk. rewrite Hk in Habove. apply Z.leb_le in Habove. lia.
  - replace (k - prec) with (k - 1 - (prec - 1)) by lia.
    apply at_least_shift; [lia | exact Hd |]. now apply log2_at_least.
Qed.

(** Above the subnormal exponent the mantissa is normal: its top bit is set. *)
Lemma round_b64_normal (neg : bool) (n d : Z) (x : pyfloat) :
  0 < n -> 0 < d ->
  round_b64 neg n d = Some x ->
  emin < fexp x -> 2 ^ (prec - 1) <= fmant x.
Proof.
  intros Hn Hd. unfold round_b64.
  destruct (n =? 0) eqn:En; [apply Z.eqb_eq in En; lia|].
  destruct (scaled_round n d (binade n d) =? 2 ^ prec) eqn:Em.
  - destruct (emax <? binade n d + 1); [discriminate|].
    intros [= <-]. intros _. apply Z.le_refl.
  - destruct (emax <? binade n d); [discriminate|].
    intros [= <-]. cbn [fmant fexp]. intros Hclamp.
    pose proof (binade_at_least n d Hn Hd Hclamp) as [Hpos Hneg].
    unfold scaled_round. destruct (0 <=? binade n d) eqn:E0.
    + apply Z.leb_le in E0. specialize (Hpos E0).
      pose proof (pow2_pos _ E0).
      pose proof (round_half_even_bounds n (d * 2 ^ binade n d) ltac:(lia) ltac:(nia)) as Hb.
      assert (2 ^ (prec - 1) <= n / (d * 2 ^ binade n d))
        by (apply Z.div_le_lower_bound; nia).
      lia.
    + apply Z.leb_gt in E0. specialize (Hneg E0).
      pose proof (pow2_pos (- binade n d) ltac:(lia)).
      pose proof (round_half_even_bounds (n * 2 ^ (- binade n d)) d ltac:(nia) Hd) as Hb.
      assert (2 ^ (prec - 1) <= n * 2 ^ (- binade n d) / d)
        by (apply Z.div_le_lower_bound; nia).
      lia.
Qed.



End Rounding.

(** *** Requests and the resolver *)

Section Resolver.

Variable server : service.

Lemma session_get_reply (req : request) (w : world) (r : response) :
  server (requests w) req = Reply r ->
  session_get server req w = (Return r, logged w req).
Proof. intros H. unfold session_get. now rewrite H. Qed.

Lemma session_get_failed (req : request) (w : world) (text : string) :
  server (requests w) req = Failed text ->
  session_get server req w = (Raise (ClientError text), logged w req).
Proof. intros H. unfold session_get. now rewrite H. Qed.

(** A search that the service answers with 404 finds nothing. *)
Lemma fetch_collections_404 (q : string) (amount : Z) (w : world) (resp : response) :
  server (requests w) (search_request q amount) = Reply resp ->
  status resp = 404 ->
  fetch_collections server q amount w = (Return [], logged w (search_request q amount)).
Proof.
  intros Hreply H404. unfold fetch_collections, bind.
  rewrite (session_get_reply _ _ _ Hreply), H404. reflexivity.
Qed.

(** A 200 reply yields one [Collection] per element of [collections], in
    order; a missing, null or empty array yields none. *)
Lemma fetch_collections_200 (q : string) (amount : Z) (w : world) (resp : response)
    (data : body) :
  server (requests w) (search_request q amount) = Reply resp ->
  status resp = 200 ->
  payload resp = inr data ->
  fetch_collections server q amount w =
    (Return (match get (j_collections data) with
             | Some hits => map collection_of_hit hits
             | None => []
             end),
     logged w (search_request q amount)).
Proof.
  intros Hreply H200 Hp. unfold fetch_collections, bind.
  rewrite (session_get_reply _ _ _ Hreply), H200. simpl.
  unfold json. rewrite Hp. simpl.
  now destruct (get (j_collections data)).
Qed.

(** Any other status raises [FetchingException]. *)
Lemma fetch_collections_other (q : string) (amount : Z) (w : world) (resp : response) :
  server (requests w) (search_request q amount) = Reply resp ->
  status resp <> 200 -> status resp <> 404 ->
  fetch_collections server q amount w =
    (Raise FetchingException, logged w (search_request q amount)).
Proof.
  intros Hreply H200 H404. unfold fetch_collections, bind.
  rewrite (session_get_reply _ _ _ Hreply).
  apply Z.eqb_neq in H200, H404. now rewrite H200, H404.
Qed.

(** The search makes exactly one request and touches nothing else. *)
Lemma fetch_collections_world (q : string) (amount : Z) (w : world) :
  snd (fetch_collections server q amount w) = logged w (search_request q amount).
Proof.
  unfold fetch_collections, bind, session_get.
  destruct (server (requests w) (search_request q amount)) as [resp | text]; [|reflexivity].
  by_status resp; try reflexivity.
  unfold json. destruct (payload resp) as [text | data]; simpl; [reflexivity|].
  now destruct (get (j_collections data)).
Qed.

Lemma fetch_collections_run (q : string) (amount : Z) (w : world)
    (o : outcome (list Collection)) :
  fst (fetch_collections server q amount w) = o ->
  fetch_collections server q amount w = (o, logged w (search_request q amount)).
Proof.
  intros <-. rewrite <- fetch_collections_world. apply surjective_pairing.
Qed.

End Resolver.

(** *** [fetch_floor_price] and the unit conversion *)

Section FloorPrice.

Variable server : service.

(** [fetch_floor_price] makes one request and touches nothing else. *)
Lemma fetch_floor_price_world (c : Collection) (w : world) :
  snd (fetch_floor_price server c w) = logged w (floor_request c).
Proof.
  unfold fetch_floor_price, bind, session_get.
  destruct (server (requests w) (floor_request c)) as [resp | text]; [|reflexivity].
  by_status resp; try reflexivity.
  unfold json. destruct (payload resp) as [text | data]; simpl; [reflexivity|].
  destruct (j_floor data) as [| | n]; simpl; try reflexivity.
  unfold truediv. now destruct (int_truediv n 1000000).
Qed.

(** Its outcome depends on the state through the request log only. *)
Lemma fetch_floor_price_log (c : Collection) (w w' : world) :
  requests w = requests w' ->
  fst (fetch_floor_price server c w) = fst (fetch_floor_price server c w').
Proof.
  intros Hlog. unfold fetch_floor_price, bind, session_get. rewrite Hlog.
  destruct (server (requests w') (floor_request c)) as [resp | text]; [|reflexivity].
  by_status resp; try reflexivity.
  unfold json. destruct (payload resp) as [text | data]; simpl; [reflexivity|].
  destruct (j_floor data) as [| | n]; simpl; try reflexivity.
  unfold truediv. now destruct (int_truediv n 1000000).
Qed.

(** The outcome on a 200 reply with a parsed body, by the [floor] key. *)
Lemma fetch_floor_price_200 (self : Collection) (w : world) (resp : response)
    (data : body) :
  server (requests w) (floor_request self) = Reply resp ->
  status resp = 200 ->
  payload resp = inr data ->
  fst (fetch_floor_price server self w) =
    match j_floor data with
    | Missing => Raise (KeyError "floor")
    | Null => Return None
    | Val n =>
        match int_truediv n 1000000 with
        | Quotient x => Return (Some x)
        | DivisionByZero => Raise (ZeroDivisionError "division by zero")
        | DivisionOverflow =>
            Raise (OverflowError "integer division result too large for a float")
        end
    end.
Proof.
  intros Hreply H200 Hp. unfold fetch_floor_price, bind.
  rewrite (session_get_reply _ _ _ _ Hreply), H200. simpl.
  unfold json. rewrite Hp. simpl.
  destruct (j_floor data) as [| | n]; simpl; try reflexivity.
  unfold truediv. now destruct (int_truediv n 1000000).
Qed.

Lemma fetch_floor_price_404 (self : Collection) (w : world) (resp : response) :
  server (requests w) (floor_request self) = Reply resp ->
  status resp = 404 ->
  fst (fetch_floor_price server self w) = Return None.
Proof.
  intros Hreply H404. unfold fetch_floor_price, bind.
  now rewrite (session_get_reply _ _ _ _ Hreply), H404.
Qed.

Lemma fetch_floor_price_other (self : Collection) (w : world) (resp : response) :
  server (requests w) (floor_request self) = Reply resp ->
  status resp <> 200 -> status resp <> 404 ->
  fst (fetch_floor_price server self w) = Raise FetchingException.
Proof.
  intros Hreply H200 H404. unfold fetch_floor_price, bind.
  rewrite (session_get_reply _ _ _ _ Hreply).
  apply Z.eqb_neq in H200, H404. now rewrite H200, H404.
Qed.

(** C3, as the code has it: on a reply, [fetch_floor_price] returns [None]
    for a 404 and for a 200 whose [floor] is null; for a 200 whose [floor] is
    an integer below [2^1000] in absolute value it returns a float, the raw
    integer divided by 10^6; whenever the division gives a float that float
    is returned, and when the quotient is beyond the float range the fetch
    raises [OverflowError]; and it raises [FetchingException] exactly when
    the status is neither 200 nor 404 (so also for the other 2xx
    statuses). *)
Theorem fetch_floor_price_spec (self : Collection) (w : world) (resp : response) :
  server (requests w) (floor_request self) = Reply resp ->
  let result := fst (fetch_floor_price server self w) in
  (status resp = 404 -> result = Return None) /\
  (forall data, status resp = 200 -> payload resp = inr data ->
     j_floor data = Null -> result = Return None) /\
  (forall data n, status resp = 200 -> payload resp = inr data ->
     j_floor data = Val n -> Z.abs n < 2 ^ 1000 ->
     exists x, int_truediv n 1000000 = Quotient x /\ result = Return (Some x)) /\
  (forall data n x, status resp = 200 -> payload resp = inr data ->
     j_floor data = Val n -> int_truediv n 1000000 = Quotient x ->
     result = Return (Some x)) /\
  (forall data n, status resp = 200 -> payload resp = inr data ->
     j_floor data = Val n -> int_truediv n 1000000 = DivisionOverflow ->
     result = Raise (OverflowError "integer division result too large for a float")) /\
  (result = Raise FetchingException <-> status resp <> 200 /\ status resp <> 404).
Proof.
  intros Hreply result. subst result.
  split; [|split; [|split; [|split; [|split]]]].
  - now apply fetch_floor_price_404.
  - intros data H200 Hp Hf. now rewrite (fetch_floor_price_200 _ _ _ _ Hreply H200 Hp), Hf.
  - intros data n H200 Hp Hf Hn.
    destruct (truediv_million_total n Hn) as [x Hx]. exists x. split; [exact Hx|].
    now rewrite (fetch_floor_price_200 _ _ _ _ Hreply H200 Hp), Hf, Hx.
  - intros data n x H200 Hp Hf Hq.
    now rewrite (fetch_floor_price_200 _ _ _ _ Hreply H200 Hp), Hf, Hq.
  - intros data n H200 Hp Hf Hq.
    now rewrite (fetch_floor_price_200 _ _ _ _ Hreply H200 Hp), Hf, Hq.
  - split.
    + intros Hraise. by_status resp.
      * rewrite (fetch_floor_price_404 _ _ _ Hreply E404) in Hraise. discriminate.
      * exfalso. revert Hraise. unfold fetch_floor_price, bind.
        rewrite (session_get_reply _ _ _ _ Hreply), E200. simpl.
        unfold json. destruct (payload resp) as [text | data]; simpl; [discriminate|].
        destruct (j_floor data) as [| | n]; simpl; try discriminate.
        unfold truediv. destruct (int_truediv n 1000000); simpl; discriminate.
      * now split.
    + intros [H200 H404]. now apply (fetch_floor_price_other _ _ _ Hreply).
Qed.

(** X20: on a 200 reply with a non-zero integer floor below [2^1000] in
    absolute value the fetch returns a float, never an overflow; that float
    is a normal binary64 (mantissa in [2^52, 2^53), exponent above the
    subnormal one and at most 971) with the sign of the amount, and it is
    within half a unit in its last place of the amount divided by 10^6. *)
Lemma fetch_floor_price_accurate (self : Collection) (w : world) (resp : response)
    (data : body) (n : Z) :
  server (requests w) (floor_request self) = Reply resp ->
  status resp = 200 -> payload resp = inr data -> j_floor data = Val n ->
  0 < Z.abs n < 2 ^ 1000 ->
  exists x,
    fst (fetch_floor_price server self w) = Return (Some x) /\
    fneg x = (n <? 0) /\
    2 ^ (prec - 1) <= fmant x < 2 ^ prec /\
    emin < fexp x <= emax /\
    (0 <= fexp x ->
       2 * Z.abs (fmant x * 2 ^ fexp x * 1000000 - Z.abs n) <= 1000000 * 2 ^ fexp x) /\
    (fexp x < 0 ->
       2 * Z.abs (fmant x * 1000000 - Z.abs n * 2 ^ (- fexp x)) <= 1000000).
Proof.
  intros Hreply H200 Hp Hf Hn.
  destruct (truediv_million_total n (proj2 Hn)) as [x Hx].
  exists x. rewrite (fetch_floor_price_200 _ _ _ _ Hreply H200 Hp), Hf, Hx.
  split; [reflexivity|].
  unfold int_truediv in Hx. simpl (1000000 =? 0) in Hx. cbv iota in Hx.
  change (Z.abs 1000000) with 1000000 in Hx.
  change (1000000 <? 0) with false in Hx. rewrite xorb_false_r in Hx.
  destruct (round_b64 _ (Z.abs n) 1000000) as [y|] eqn:Hy; [|discriminate].
  injection Hx as ->.
  destruct (round_b64_valid _ (Z.abs n) 1000000 _ (Z.abs_nonneg n) eq_refl Hy)
    as (Hmant & Hexp & Hsign).
  assert (Hnormal : emin < fexp x).
  { pose proof (round_b64_exponent _ _ _ _ (proj1 Hn) Hy) as [Hlow _].
    pose proof (binade_ge (Z.abs n) 1000000) as Hb.
    pose proof (Z.log2_nonneg (Z.abs n)) as Hlog.
    change (Z.log2 1000000) with 19 in Hb. unfold prec in Hb. unfold emin. lia. }
  split; [exact Hsign|].
  split; [split; [|exact (proj2 Hmant)]|].
  { exact (round_b64_normal _ (Z.abs n) 1000000 _ (proj1 Hn) eq_refl Hy Hnormal). }
  split; [split; [exact Hnormal | exact (proj2 Hexp)]|].
  apply (round_b64_half_ulp _ (Z.abs n) 1000000 _ (proj1 Hn) eq_refl Hy).
Qed.


End FloorPrice.

(** *** The floor lookup *)

Section FloorCommand.

Variable server : service.

(** C5: when the search has zero hits (a 404, or a 200 whose [collections]
    is missing, null or empty) the floor lookup answers with the not-found
    message, and the search is the only request it makes: no floor-price
    fetch follows. *)
Theorem floor_not_found_single_request (q : string) (w : world) (resp : response) :
  server (requests w) (search_request q 5) = Reply resp ->
  zero_hits resp ->
  floor server q w =
    (Return tt, posted (logged w (search_request q 5)) (ErrorEmbed (not_found_text q))) /\
  requests (snd (floor server q w)) = (requests w ++ [search_request q 5])%list /\
  sent (snd (floor server q w)) = (sent w ++ [ErrorEmbed (not_found_text q)])%list.
Proof.
  intros Hreply Hzero.
  assert (Hrun : floor server q w =
    (Return tt, posted (logged w (search_request q 5)) (ErrorEmbed (not_found_text q)))).
  { unfold floor, try_except.
    destruct Hzero as [H404 | (H200 & data & Hp & Hnone)].
    - now rewrite (fetch_collections_404 _ _ _ _ _ Hreply H404).
    - rewrite (fetch_collections_200 _ _ _ _ _ _ Hreply H200 Hp).
      now destruct Hnone as [-> | ->]. }
  rewrite Hrun. repeat split.
Qed.

(** One turn of the loop on a handled fetch: one request, one message. *)
Lemma floor_step_handled (c : Collection) (w : world) :
  handled (fst (fetch_floor_price server c w)) ->
  floor_step server c w =
    (Return tt,
     posted (logged w (floor_request c))
            (floor_entry c (fst (fetch_floor_price server c w)))).
Proof.
  intros Hh. unfold floor_step, try_except.
  pose proof (fetch_floor_price_world server c w) as Hw.
  destruct (fetch_floor_price server c w) as [[[price|] | e] w1]; simpl in *; subst w1;
    try reflexivity.
  now rewrite Hh.
Qed.

(** An exception the loop does not catch leaves the turn with it, and no
    message is sent for the candidate. *)
Lemma floor_step_unhandled (c : Collection) (w : world) (e : exn) :
  fst (fetch_floor_price server c w) = Raise e ->
  is_fetching e = false ->
  floor_step server c w = (Raise e, logged w (floor_request c)).
Proof.
  intros He Hf. unfold floor_step, try_except.
  pose proof (fetch_floor_price_world server c w) as Hw.
  destruct (fetch_floor_price server c w) as [o w1]; simpl in *; subst.
  now rewrite Hf.
Qed.

Lemma floor_loop_cons (c : Collection) (rest : list Collection) (w : world) :
  floor_loop server (c :: rest) w =
    match floor_step server c w with
    | (Return _, w') => floor_loop server rest w'
    | (Raise e, w') => (Raise e, w')
    end.
Proof. reflexivity. Qed.

(** The loop over candidates whose fetches are all handled: every candidate
    is fetched once, in order, and gets exactly one message, in order. *)
Lemma floor_loop_handled (cs : list Collection) :
  forall w : world,
  (forall n c, nth_error cs n = Some c ->
     handled (fst (fetch_floor_price server c
                     (after_requests w (map floor_request (firstn n cs)))))) ->
  exists entries : list message,
    floor_loop server cs w =
      (Return tt,
       mkWorld (table w) (requests w ++ map floor_request cs)%list
               (sent w ++ entries)%list) /\
    List.length entries = List.length cs /\
    forall n c, nth_error cs n = Some c ->
      nth_error entries n =
        Some (floor_entry c
                (fst (fetch_floor_price server c
                        (after_requests w (map floor_request (firstn n cs)))))).
Proof.
  induction cs as [| c rest IH]; intros w Hall.
  - exists []. simpl. unfold ret. rewrite !app_nil_r. destruct w; simpl.
    repeat split. intros [|n] c H; discriminate.
  - assert (Hhead : handled (fst (fetch_floor_price server c w))).
    { rewrite (fetch_floor_price_log server c w (after_requests w [])).
      - exact (Hall 0%nat c eq_refl).
      - simpl. now rewrite app_nil_r. }
    set (w1 := posted (logged w (floor_request c))
                      (floor_entry c (fst (fetch_floor_price server c w)))).
    assert (Hshift : forall n,
               requests (after_requests w1 (map floor_request (firstn n rest)))
               = requests (after_requests w (map floor_request (firstn (S n) (c :: rest))))).
    { intros n. simpl. now rewrite <- app_assoc. }
    destruct (IH w1) as (entries & Hrun & Hlen & Hnth).
    { intros n c' Hn.
      rewrite (fetch_floor_price_log server c' _ _ (Hshift n)).
      exact (Hall (S n) c' Hn). }
    exists (floor_entry c (fst (fetch_floor_price server c w)) :: entries).
    split; [|split].
    + rewrite floor_loop_cons, (floor_step_handled c w Hhead). fold w1. rewrite Hrun.
      subst w1. simpl. now rewrite <- !app_assoc.
    + simpl. now rewrite Hlen.
    + intros [|n] c' Hn.
      * simpl in Hn. injection Hn as <-. simpl.
        rewrite (fetch_floor_price_log server c w (after_requests w [])); [reflexivity|].
        simpl. now rewrite app_nil_r.
      * simpl in Hn. cbn [nth_error]. rewrite (Hnth n c' Hn).
        now rewrite (fetch_floor_price_log server c' _ _ (Hshift n)).
Qed.

(** The loop stops at the first candidate whose fetch raises something else
    than [FetchingException]: the candidates after it are not fetched. *)
Lemma floor_loop_stops (c : Collection) (rest : list Collection) (w : world) (e : exn) :
  fst (fetch_floor_price server c w) = Raise e ->
  is_fetching e = false ->
  floor_loop server (c :: rest) w = (Raise e, logged w (floor_request c)).
Proof.
  intros He Hf. now rewrite floor_loop_cons, (floor_step_unhandled c w e He Hf).
Qed.

(** The isolation the loop does achieve: when the search resolved a
    non-empty list of candidates and each candidate's floor-price fetch
    returns (a price or none) or raises [FetchingException], the lookup runs
    to the end: every candidate is fetched once and gets exactly one
    message, in the order of the list; the message is an error entry when
    the fetch raised [FetchingException] or found no price, and the
    candidate's record otherwise. *)
Theorem floor_isolates_handled_failures (q : string) (w : world) (cs : list Collection) :
  fst (fetch_collections server q 5 w) = Return cs ->
  cs <> [] ->
  let w1 := logged w (search_request q 5) in
  let outcome_of n c :=
    fst (fetch_floor_price server c
           (after_requests w1 (map floor_request (firstn n cs)))) in
  (forall n c, nth_error cs n = Some c -> handled (outcome_of n c)) ->
  exists entries : list message,
    floor server q w =
      (Return tt,
       mkWorld (table w) (requests w1 ++ map floor_request cs)%list
               (sent w ++ entries)%list) /\
    List.length entries = List.length cs /\
    (forall n c, nth_error cs n = Some c ->
       nth_error entries n = Some (floor_entry c (outcome_of n c))) /\
    (forall n c price, nth_error cs n = Some c ->
       outcome_of n c = Return (Some price) ->
       nth_error entries n = Some (FloorEmbed (display_name c) price)) /\
    (forall n c entry, nth_error cs n = Some c ->
       outcome_of n c = Raise FetchingException \/ outcome_of n c = Return None ->
       nth_error entries n = Some entry -> is_error_entry entry = true).
Proof.
  intros Hres Hne w1 outcome_of Hall.
  destruct (floor_loop_handled cs w1 Hall) as (entries & Hrun & Hlen & Hnth).
  exists entries. split; [|split; [|split; [|split]]].
  - unfold floor, try_except. rewrite (fetch_collections_run server _ _ _ _ Hres).
    destruct cs as [| c rest]; [contradiction|]. exact Hrun.
  - exact Hlen.
  - exact Hnth.
  - intros n c price Hn Ho. rewrite (Hnth n c Hn). fold (outcome_of n c). now rewrite Ho.
  - intros n c entry Hn Ho He. rewrite (Hnth n c Hn) in He. fold (outcome_of n c) in He.
    injection He as <-. now destruct Ho as [-> | ->].
Qed.

End FloorCommand.

(** *** Strings and the image URL *)

Section Strings.

Variable sep : ascii.

Lemma split_nonempty (s : string) : split sep s <> [].
Proof.
  destruct s as [| a rest]; simpl; [discriminate|].
  destruct (Ascii.eqb a sep); [discriminate|].
  destruct (split sep rest); discriminate.
Qed.

(** A string without the separator is its own single piece. *)
Lemma split_without_sep (s : string) : contains sep s = false -> split sep s = [s].
Proof.
  induction s as [| a rest IH]; simpl; intros Hc; [reflexivity|].
  apply orb_false_iff in Hc as [Ha Hrest].
  now rewrite Ha, (IH Hrest).
Qed.

(** A single piece means there was no separator. *)
Lemma split_single (s piece : string) : split sep s = [piece] -> contains sep s = false.
Proof.
  revert piece. induction s as [| a rest IH]; simpl; intros piece Hs; [reflexivity|].
  pose proof (split_nonempty rest) as Hne.
  destruct (Ascii.eqb a sep).
  - destruct (split sep rest); [contradiction | discriminate].
  - destruct (split sep rest) as [| x [| y ys]]; [contradiction | | discriminate].
    simpl. now apply (IH x).
Qed.

(** No piece of a split contains the separator. *)
Lemma split_pieces_clean (s piece : string) :
  In piece (split sep s) -> contains sep piece = false.
Proof.
  revert piece. induction s as [| a rest IH]; simpl; intros piece Hin.
  - destruct Hin as [<- | []]. reflexivity.
  - destruct (Ascii.eqb a sep) eqn:Ea.
    + destruct Hin as [<- | Hin]; [reflexivity | now apply IH].
    + destruct (split sep rest) as [| p ps] eqn:Es.
      * destruct Hin as [<- | []]. simpl. now rewrite Ea.
      * destruct Hin as [<- | Hin].
        -- simpl. rewrite Ea. simpl. apply IH. now left.
        -- apply IH. now right.
Qed.

Lemma last_piece_cons (x : string) (xs : list string) :
  xs <> [] -> last_piece (x :: xs) = last_piece xs.
Proof. destruct xs; [contradiction | reflexivity]. Qed.

Lemma last_piece_in (xs : list string) : xs <> [] -> In (last_piece xs) xs.
Proof.
  unfold last_piece. induction xs as [| x [| y ys] IH]; intros Hne.
  - contradiction.
  - now left.
  - right. apply IH. discriminate.
Qed.

(** A string with a separator ends with the separator followed by the last
    piece of its split. *)
Lemma split_last_suffix (s : string) :
  contains sep s = true ->
  ends_with s (String sep (last_piece (split sep s))).
Proof.
  unfold ends_with.
  induction s as [| a rest IH]; simpl; intros Hc; [discriminate|].
  pose proof (split_nonempty rest) as Hne.
  destruct (Ascii.eqb a sep) eqn:Ea.
  - apply Ascii.eqb_eq in Ea. subst a.
    rewrite (last_piece_cons _ _ Hne).
    destruct (contains sep rest) eqn:Hr.
    + destruct (IH eq_refl) as [p Hp]. exists (String sep p). simpl. f_equal. exact Hp.
    + exists EmptyString. now rewrite (split_without_sep rest Hr).
  - simpl in Hc. destruct (IH Hc) as [p Hp].
    exists (String a p). simpl.
    destruct (split sep rest) as [| x [| y ys]] eqn:Es; [contradiction | |].
    + apply split_single in Es. congruence.
    + rewrite (last_piece_cons _ (y :: ys)) in * by discriminate.
      simpl. f_equal. exact Hp.
Qed.

End Strings.

Section ImageUrl.

Variable server : service.

(** C9: on a 200 reply, [fetch_image_url] returns [None] when the thumbnail
    is missing, null or empty, or has no ['/']; otherwise it returns the
    gateway prefix followed by the thumbnail's last path segment, which has
    no ['/'] in it and is what the thumbnail ends with after its last ['/'].
    For the thumbnail [ipfs/abc123] the URL ends in [abc123]. *)
Theorem fetch_image_url_spec (self : Collection) (w : world) (resp : response)
    (data : body) :
  server (requests w) (image_request self) = Reply resp ->
  status resp = 200 ->
  payload resp = inr data ->
  let result := fst (fetch_image_url server self w) in
  (falsy (get (j_thumbnail data)) = true -> result = Return None) /\
  (forall t, j_thumbnail data = Val t -> contains slash t = false ->
     result = Return None) /\
  (forall t, j_thumbnail data = Val t -> contains slash t = true ->
     let piece := last_piece (split slash t) in
     result = Return (Some (gateway ++ piece)) /\
     contains slash piece = false /\
     ends_with t (String slash piece)) /\
  (j_thumbnail data = Val "ipfs/abc123" ->
     exists u, result = Return (Some u) /\ ends_with u "abc123").
Proof.
  intros Hreply H200 Hp result. subst result.
  unfold fetch_image_url, bind.
  rewrite (session_get_reply _ _ _ _ Hreply), H200. simpl.
  unfold json. rewrite Hp. simpl.
  split; [|split; [|split]].
  - intros Hf. now rewrite Hf.
  - intros t Ht Hc. rewrite Ht. simpl.
    destruct t as [| a t']; [reflexivity|]. simpl. simpl in Hc. now rewrite Hc.
  - intros t Ht Hc. rewrite Ht. simpl.
    destruct t as [| a t']; [discriminate|]. cbn [falsy fmt].
    rewrite Hc. simpl negb. cbv iota.
    split; [reflexivity|]. split.
    + apply (split_pieces_clean slash (String a t')).
      apply last_piece_in, split_nonempty.
    + now apply split_last_suffix.
  - intros Ht. rewrite Ht. simpl.
    eexists. split; [reflexivity|]. now exists gateway.
Qed.

End ImageUrl.

(** *** The tracked-collection store *)

Section Store.

Lemma policy_id_exists_run (g : Z) (p : string) (w : world) :
  policy_id_exists g p w = (Return (tracked g p w), w).
Proof. reflexivity. Qed.

Lemma get_policy_ids_run (g : Z) (w : world) :
  get_policy_ids g w = (Return (listing g w), w).
Proof. reflexivity. Qed.

Lemma same_row_spec (g : Z) (p : string) (r : row) :
  same_row g p r = true <-> r = (g, p).
Proof.
  unfold same_row. destruct r as [g' p']. simpl.
  rewrite andb_true_iff, Z.eqb_eq, String.eqb_eq. split.
  - intros [-> ->]. reflexivity.
  - intros [= -> ->]. now split.
Qed.

Lemma tracked_in (g : Z) (p : string) (w : world) :
  tracked g p w = true <-> In (g, p) (table w).
Proof.
  unfold tracked. rewrite existsb_exists. split.
  - intros (r & Hin & Hr). apply same_row_spec in Hr. now subst.
  - intros Hin. exists (g, p). split; [exact Hin | now apply same_row_spec].
Qed.

(** Deleting a pair that is not in the table leaves the table as it is. *)
Lemma delete_untracked (g : Z) (p : string) (rows : list row) :
  existsb (same_row g p) rows = false ->
  filter (fun r => negb (same_row g p r)) rows = rows.
Proof.
  induction rows as [| r rows IH]; simpl; intros Hn; [reflexivity|].
  apply orb_false_iff in Hn as [Hr Hrest]. rewrite Hr. simpl. now rewrite (IH Hrest).
Qed.

(** After the delete no row of the pair is left. *)
Lemma delete_removes (g : Z) (p : string) (rows : list row) :
  existsb (same_row g p) (filter (fun r => negb (same_row g p r)) rows) = false.
Proof.
  induction rows as [| r rows IH]; simpl; [reflexivity|].
  destruct (same_row g p r) eqn:Hr; simpl; [exact IH|]. now rewrite Hr, IH.
Qed.

Lemma count_listing_app (g : Z) (p : string) (rows : list row) :
  count_occ string_dec (map snd (filter (fun r => fst r =? g) (rows ++ [(g, p)]))) p =
  S (count_occ string_dec (map snd (filter (fun r => fst r =? g) rows)) p).
Proof.
  rewrite filter_app, map_app, count_occ_app. simpl. rewrite Z.eqb_refl. simpl.
  destruct (string_dec p p); [apply Nat.add_1_r | contradiction].
Qed.

Lemma count_listing_untracked (g : Z) (p : string) (rows : list row) :
  existsb (same_row g p) rows = false ->
  count_occ string_dec (map snd (filter (fun r => fst r =? g) rows)) p = 0%nat.
Proof.
  induction rows as [| [g' p'] rows IH]; simpl; intros Hn; [reflexivity|].
  apply orb_false_iff in Hn as [Hr Hrest]. unfold same_row in Hr. simpl in Hr.
  destruct (g' =? g) eqn:Eg; simpl; [|now apply IH].
  simpl in Hr. apply String.eqb_neq in Hr.
  destruct (string_dec p' p); [contradiction | now apply IH].
Qed.

End Store.

Section Insert.

Variable server : service.

(** What [insert] does, by cases on the pre-check and on the resolution. *)
Lemma insert_run (g : Z) (p : string) (w : world) :
  insert server g p w =
    if tracked g p w then
      (Return tt, posted w (ErrorEmbed "This policy id is already added!"))
    else
      let w1 := logged w (search_request p 1) in
      match fst (fetch_collections server p 1 w) with
      | Raise e =>
          (Return tt,
           posted w1 (ErrorEmbed
             (if is_fetching e then "There was an error when fetching the collection!"
              else "There was an unexpected error when fetching the collection:"
                   ++ newline ++ exn_str e)))
      | Return [] =>
          (Return tt, posted w1 (ErrorEmbed "This doesn't seem to be a valid policy id!"))
      | Return (first :: _) =>
          (Return tt,
           posted (mkWorld (table w ++ [(g, p)])%list (requests w1) (sent w1))
                  (SuccessEmbed ("Successfully added **" ++ fmt (display_name first)
                                 ++ "** to the list!")))
      end.
Proof.
  unfold insert, bind. rewrite policy_id_exists_run.
  destruct (tracked g p w); [reflexivity|].
  unfold try_except.
  pose proof (fetch_collections_world server p 1 w) as Hw.
  destruct (fetch_collections server p 1 w) as [[[| first others] | e] w1]; simpl in *; subst w1.
  - reflexivity.
  - reflexivity.
  - now destruct (is_fetching e).
Qed.

End Insert.

Section Track.

Variable server : service.

Lemma not_both_embeds (msgs : list message) (text text' : string) :
  (msgs ++ [ErrorEmbed text])%list <> (msgs ++ [SuccessEmbed text'])%list.
Proof. intros H. apply app_inj_tail in H as [_ H]. discriminate. Qed.

(** [insert] reports success exactly when it wrote the row. *)
Lemma insert_succeeded (g : Z) (p : string) (w : world) :
  succeeded w (snd (insert server g p w)) ->
  tracked g p w = false /\
  table (snd (insert server g p w)) = (table w ++ [(g, p)])%list.
Proof.
  rewrite insert_run. intros [text Hs]. revert Hs.
  destruct (tracked g p w); simpl.
  - intros Hs. now apply not_both_embeds in Hs.
  - destruct (fst (fetch_collections server p 1 w)) as [[| first others] | e]; simpl;
      intros Hs; try (now apply not_both_embeds in Hs).
    now split.
Qed.

(** [insert] never makes a second row of a pair. *)
Lemma insert_keeps_nodup (g : Z) (p : string) (w : world) :
  NoDup (table w) -> NoDup (table (snd (insert server g p w))).
Proof.
  intros Hnd. rewrite insert_run.
  destruct (tracked g p w) eqn:Ht; simpl; [exact Hnd|].
  destruct (fst (fetch_collections server p 1 w)) as [[| first others] | e]; simpl;
    try exact Hnd.
  apply NoDup_app; [exact Hnd | repeat constructor; intros [] | ].
  intros r Hr [<- | []].
  apply tracked_in in Hr. congruence.
Qed.

(** C10: [insert] resolves the policy id by a search before it writes, and
    the table is left as it was when the resolution raises (whatever the
    exception) or finds nothing; the command itself never raises.  The row
    is appended only when the pair was not tracked and the resolution found
    at least one collection, and then the search is the one request made. *)
Theorem insert_validates_before_writing (g : Z) (p : string) (w : world) :
  let w' := snd (insert server g p w) in
  fst (insert server g p w) = Return tt /\
  (forall e, fst (fetch_collections server p 1 w) = Raise e -> table w' = table w) /\
  (fst (fetch_collections server p 1 w) = Return [] -> table w' = table w) /\
  (table w' <> table w ->
     fst (policy_id_exists g p w) = Return false /\
     (exists first others,
        fst (fetch_collections server p 1 w) = Return (first :: others)) /\
     table w' = (table w ++ [(g, p)])%list /\
     requests w' = (requests w ++ [search_request p 1])%list) /\
  (forall first others,
     fst (policy_id_exists g p w) = Return false ->
     fst (fetch_collections server p 1 w) = Return (first :: others) ->
     table w' = (table w ++ [(g, p)])%list).
Proof.
  intros w'. subst w'. rewrite insert_run, policy_id_exists_run. simpl.
  destruct (tracked g p w); simpl.
  - repeat split; try reflexivity; try congruence. all: intros H; now exfalso.
  - destruct (fst (fetch_collections server p 1 w)) as [[| first others] | e]; simpl.
    + repeat split; try reflexivity; try congruence. all: intros H; now exfalso.
    + repeat split; try reflexivity; try congruence. now exists first, others.
    + repeat split; try reflexivity; try congruence. all: intros H; now exfalso.
Qed.


End Track.

(** *** What a computation leaves alone *)

Section Frame.

Context {X : Type}.
Variable part : world -> X.

Lemma keeps_ret {A} (a : A) : keeps part (ret a).
Proof. intros w. reflexivity. Qed.

Lemma keeps_raise {A} (e : exn) : keeps part (@raise A e).
Proof. intros w. reflexivity. Qed.

Lemma keeps_bind {A B} (m : M A) (k : A -> M B) :
  keeps part m -> (forall a, keeps part (k a)) -> keeps part (bind m k).
Proof.
  intros Hm Hk w. unfold bind. specialize (Hm w).
  destruct (m w) as [[a | e] w1]; simpl in *; [|exact Hm].
  now rewrite (Hk a w1).
Qed.

Lemma keeps_try_except {A B} (m : M A) (handler : exn -> M B) (k : A -> M B) :
  keeps part m -> (forall e, keeps part (handler e)) -> (forall a, keeps part (k a)) ->
  keeps part (try_except m handler k).
Proof.
  intros Hm Hh Hk w. unfold try_except. specialize (Hm w).
  destruct (m w) as [[a | e] w1]; simpl in *.
  - now rewrite (Hk a w1).
  - now rewrite (Hh e w1).
Qed.

Lemma keeps_json (resp : response) : keeps part (json resp).
Proof. intros w. unfold json. now destruct (payload resp). Qed.

Lemma keeps_subscript {A} (key : string) (f : field A) : keeps part (subscript key f).
Proof. intros w. now destruct f. Qed.

Lemma keeps_truediv (a b : Z) : keeps part (truediv a b).
Proof. intros w. unfold truediv. now destruct (int_truediv a b). Qed.

Lemma keeps_json_truediv (x : option Z) (b : Z) : keeps part (json_truediv x b).
Proof. destruct x; simpl; [apply keeps_truediv | apply keeps_raise]. Qed.

Lemma keeps_json_int (x : option Z) : keeps part (json_int x).
Proof. intros w. now destruct x. Qed.

Lemma keeps_round_float (x : pyfloat) (n : Z) : keeps part (round_float x n).
Proof. intros w. unfold round_float. now destruct (py_round x n). Qed.

Lemma keeps_policy_id_exists (g : Z) (p : string) : keeps part (policy_id_exists g p).
Proof. intros w. reflexivity. Qed.

Lemma keeps_get_policy_ids (g : Z) : keeps part (get_policy_ids g).
Proof. intros w. reflexivity. Qed.

End Frame.

Create HintDb frame.
#[local] Hint Resolve keeps_ret keeps_raise keeps_json keeps_subscript keeps_truediv
  keeps_json_truediv keeps_json_int keeps_round_float keeps_policy_id_exists
  keeps_get_policy_ids : frame.

(** Walks down a computation: binds, handlers and case distinctions. *)
Ltac frame_step :=
  match goal with
  | |- keeps _ (bind _ _) => apply keeps_bind; [| intro]
  | |- keeps _ (try_except _ _ _) => apply keeps_try_except; [| intro | intro]
  | |- keeps _ (if ?b then _ else _) => destruct b
  | |- keeps _ (match ?x with _ => _ end) => destruct x
  | |- keeps _ _ => solve [auto with frame]
  end.

Ltac frame := repeat frame_step.

(** The reads leave alone every part a request does not touch; the two
    reporting commands leave alone every part that neither a request nor a
    message touches. *)
Section FrameCommands.

Variable server : service.
Context {X : Type}.
Variable part : world -> X.
Hypothesis part_logged : forall w req, part (logged w req) = part w.

Lemma keeps_session_get (req : request) : keeps part (session_get server req).
Proof.
  intros w. unfold session_get.
  destruct (server (requests w) req); simpl; apply part_logged.
Qed.

#[local] Hint Resolve keeps_session_get : frame.

Lemma keeps_fetch_collections (q : string) (amount : Z) :
  keeps part (fetch_collections server q amount).
Proof. unfold fetch_collections. frame. Qed.

Lemma keeps_fetch_floor_price (c : Collection) : keeps part (fetch_floor_price server c).
Proof. unfold fetch_floor_price. frame. Qed.

Lemma keeps_fetch_last_sale (c : Collection) : keeps part (fetch_last_sale server c).
Proof. unfold fetch_last_sale. frame. Qed.

Lemma keeps_fetch_image_url (c : Collection) : keeps part (fetch_image_url server c).
Proof. unfold fetch_image_url. frame. Qed.

#[local] Hint Resolve keeps_fetch_collections keeps_fetch_floor_price
  keeps_fetch_last_sale : frame.

Lemma keeps_pass_loop (policy_ids : list string) :
  forall index description, keeps part (pass_loop server index policy_ids description).
Proof.
  induction policy_ids as [| policy rest IH]; intros index description; simpl;
    [apply keeps_ret|].
  apply keeps_bind; [auto with frame|]. intros [| c cs]; [apply IH|].
  apply keeps_bind; [auto with frame|]. intros resp.
  destruct (status resp =? 404); [apply IH|].
  destruct (negb (status resp =? 200)); [apply IH|].
  unfold volume_of, to_major.
  repeat (apply keeps_bind; [solve [frame] | intro]).
  apply IH.
Qed.

Hypothesis part_posted : forall w msg, part (posted w msg) = part w.

Lemma keeps_send (msg : message) : keeps part (send msg).
Proof. intros w. apply part_posted. Qed.

#[local] Hint Resolve keeps_send : frame.
#[local] Hint Unfold error_embed success_embed : frame.

Lemma keeps_floor_loop (cs : list Collection) : keeps part (floor_loop server cs).
Proof.
  induction cs as [| c rest IH]; simpl; [apply keeps_ret|].
  apply keeps_bind; [|intro; exact IH].
  unfold floor_step, error_embed. frame.
Qed.

Lemma keeps_floor (q : string) : keeps part (floor server q).
Proof.
  unfold floor, error_embed.
  apply keeps_try_except; [auto with frame | intro; frame |].
  intros [| c rest]; [frame | apply keeps_floor_loop].
Qed.

Lemma keeps_pass (g : Z) : keeps part (_pass server g).
Proof.
  unfold _pass, error_embed. apply keeps_bind; [apply keeps_get_policy_ids|].
  intros [| p ps]; [frame|].
  apply keeps_bind; [apply keeps_pass_loop | intro; apply keeps_send].
Qed.

End FrameCommands.

Section Pass.

Variable server : service.

(** C8: for a server with no row in the table the list of policy ids is
    empty, and the report command answers with the empty-list message
    without making any request. *)
Theorem empty_list_short_circuits (g : Z) (w : world) :
  (forall r, In r (table w) -> fst r <> g) ->
  fst (get_policy_ids g w) = Return [] /\
  _pass server g w = (Return tt, posted w (ErrorEmbed empty_list_text)) /\
  requests (snd (_pass server g w)) = requests w.
Proof.
  intros Hnone.
  assert (Hl : listing g w = []).
  { unfold listing. induction (table w) as [| r rows IH]; [reflexivity|]. simpl.
    destruct (fst r =? g) eqn:Eg.
    - apply Z.eqb_eq in Eg. exfalso. apply (Hnone r); [now left | exact Eg].
    - apply IH. intros r' Hr'. apply Hnone. now right. }
  unfold _pass, bind. rewrite get_policy_ids_run, Hl. simpl. repeat split.
Qed.

(** An entry whose resolution finds nothing is skipped. *)
Lemma pass_loop_skips_unresolved (index : Z) (policy : string) (rest : list string)
    (description : list report_block) (w : world) :
  fst (fetch_collections server policy 1 w) = Return [] ->
  pass_loop server index (policy :: rest) description w =
    pass_loop server (index + 1) rest description (logged w (search_request policy 1)).
Proof.
  intros Hr. cbn [pass_loop]. unfold bind at 1.
  now rewrite (fetch_collections_run server _ _ _ _ Hr).
Qed.

(** An entry whose composite read is not answered with 200 is skipped. *)
Lemma pass_loop_skips_failed_read (index : Z) (policy : string) (rest : list string)
    (description : list report_block) (w : world) (c : Collection) (cs : list Collection)
    (resp : response) :
  fst (fetch_collections server policy 1 w) = Return (c :: cs) ->
  let w1 := logged w (search_request policy 1) in
  server (requests w1) (mkRequest (policy_url policy) []) = Reply resp ->
  status resp <> 200 ->
  pass_loop server index (policy :: rest) description w =
    pass_loop server (index + 1) rest description
      (logged w1 (mkRequest (policy_url policy) [])).
Proof.
  intros Hr w1 Hreply H200. cbn [pass_loop]. unfold bind at 1.
  rewrite (fetch_collections_run server _ _ _ _ Hr). fold w1.
  unfold bind at 1. rewrite (session_get_reply _ _ _ _ Hreply).
  apply Z.eqb_neq in H200. rewrite H200. simpl. now destruct (status resp =? 404).
Qed.

(** [fetch_last_sale] makes one request and touches nothing else. *)
Lemma fetch_last_sale_world (c : Collection) (w : world) :
  snd (fetch_last_sale server c w) = logged w (last_sale_request c).
Proof.
  unfold fetch_last_sale, bind, session_get.
  destruct (server (requests w) (last_sale_request c)) as [resp | text]; [|reflexivity].
  by_status resp; try reflexivity.
  unfold json. destruct (payload resp) as [text | data]; simpl; [reflexivity|].
  destruct (get (j_transactions data)) as [[| first others] |]; simpl; try reflexivity.
  destruct (amount_lovelace first) as [| | n]; simpl; try reflexivity.
  unfold truediv. now destruct (int_truediv n 1000000).
Qed.

(** An entry that resolves, whose composite read is a 200 with the three
    metrics, and whose last-sale read returns, adds one block, numbered by
    its position in the list, and the loop goes on after three requests. *)
Lemma pass_loop_reports (index : Z) (policy : string) (rest : list string)
    (description : list report_block) (w : world) (c : Collection) (cs : list Collection)
    (resp : response) (data : body) (raw_floor raw_volume : Z)
    (floor_price volume : pyfloat) (last_sale : option pyfloat) :
  fst (fetch_collections server policy 1 w) = Return (c :: cs) ->
  let w1 := logged w (search_request policy 1) in
  let w2 := logged w1 (mkRequest (policy_url policy) []) in
  server (requests w1) (mkRequest (policy_url policy) []) = Reply resp ->
  status resp = 200 ->
  payload resp = inr data ->
  j_floor_price data = Val raw_floor ->
  j_asset_minted data <> Missing ->
  j_total_volume data = Val raw_volume ->
  int_truediv raw_floor 1000000 = Quotient floor_price ->
  fst (volume_of (Some raw_volume) w2) = Return volume ->
  fst (fetch_last_sale server c w2) = Return last_sale ->
  pass_loop server index (policy :: rest) description w =
    pass_loop server (index + 1) rest
      (description ++
       [mkBlock (index + 1) (display_name c) floor_price (get (j_asset_minted data))
                volume last_sale])%list
      (logged w2 (last_sale_request c)).
Proof.
  intros Hres w1 w2 Hreply H200 Hp Hfloor Hsupply Hvolume Hdiv Hround Hsale.
  cbn [pass_loop]. unfold bind at 1.
  rewrite (fetch_collections_run server _ _ _ _ Hres). fold w1.
  unfold bind at 1. rewrite (session_get_reply _ _ _ _ Hreply). fold w2.
  rewrite H200. simpl (200 =? 404). simpl (negb (200 =? 200)). cbv iota.
  unfold bind at 1. unfold json at 1. rewrite Hp. unfold ret at 1.
  unfold bind at 1. rewrite Hfloor. cbn [subscript]. unfold ret at 1.
  unfold bind at 1. unfold to_major at 1, json_truediv, truediv. rewrite Hdiv.
  unfold ret at 1.
  unfold bind at 1.
  assert (Hs : subscript "asset_minted" (j_asset_minted data) w2 =
               (Return (get (j_asset_minted data)), w2)).
  { destruct (j_asset_minted data); [contradiction | reflexivity | reflexivity]. }
  rewrite Hs.
  unfold bind at 1. rewrite Hvolume. cbn [subscript]. unfold ret at 1.
  unfold bind at 1.
  assert (Hv : volume_of (Some raw_volume) w2 = (Return volume, w2)).
  { revert Hround. unfold volume_of, bind, to_major, json_truediv, truediv.
    destruct (int_truediv raw_volume 1000000); simpl; try discriminate.
    unfold round_float. destruct (py_round x 1); simpl; [|discriminate].
    now intros [= ->]. }
  rewrite Hv.
  unfold bind at 1.
  pose proof (fetch_last_sale_world c w2) as Hw.
  destruct (fetch_last_sale server c w2) as [o w3]. simpl in Hsale, Hw. subst o w3.
  reflexivity.
Qed.

(** An exception out of the resolution leaves the loop at once. *)
Lemma pass_loop_resolution_raises (index : Z) (policy : string) (rest : list string)
    (description : list report_block) (w : world) (e : exn) :
  fst (fetch_collections server policy 1 w) = Raise e ->
  pass_loop server index (policy :: rest) description w =
    (Raise e, logged w (search_request policy 1)).
Proof.
  intros Hr. cbn [pass_loop]. unfold bind at 1.
  now rewrite (fetch_collections_run server _ _ _ _ Hr).
Qed.

(** The loop over a list in two parts is the loop over the first part, then,
    unless that raised, the loop over the second part from where it stopped. *)
Lemma pass_loop_app (before : list string) :
  forall (index : Z) (after : list string) (description : list report_block) (w : world),
  pass_loop server index (before ++ after) description w =
    match pass_loop server index before description w with
    | (Return blocks, w1) =>
        pass_loop server (index + Z.of_nat (List.length before)) after blocks w1
    | (Raise e, w1) => (Raise e, w1)
    end.
Proof.
  induction before as [| policy before IH]; intros index after description w.
  - simpl. now rewrite Z.add_0_r.
  - cbn [app List.length pass_loop].
    replace (index + Z.of_nat (S (List.length before)))
      with (index + 1 + Z.of_nat (List.length before)) by lia.
    unfold bind.
    repeat run_next; try reflexivity; apply IH.
Qed.

(** C1, where the code departs from it: when the entries before a tracked
    policy id have been gone through and the search for that id is answered
    with a status other than 200 and 404, the report command ends with
    [FetchingException]: no report is sent, the blocks written for the
    entries before it are lost, and the entries after it are never looked
    at. *)
Theorem pass_aborts_when_resolution_raises (g : Z) (w : world)
    (before : list string) (policy : string) (after : list string)
    (blocks : list report_block) (w1 : world) (resp : response) :
  fst (get_policy_ids g w) = Return (before ++ policy :: after)%list ->
  pass_loop server 0 before [] w = (Return blocks, w1) ->
  server (requests w1) (search_request policy 1) = Reply resp ->
  status resp <> 200 -> status resp <> 404 ->
  _pass server g w = (Raise FetchingException, logged w1 (search_request policy 1)) /\
  sent (snd (_pass server g w)) = sent w.
Proof.
  intros Hids Hbefore Hreply H200 H404.
  assert (Hrun : _pass server g w =
                 (Raise FetchingException, logged w1 (search_request policy 1))).
  { unfold _pass. unfold bind at 1.
    rewrite get_policy_ids_run in *. simpl in Hids. injection Hids as Hids. rewrite Hids.
    destruct (before ++ policy :: after)%list as [| p ps] eqn:Hlist.
    { now destruct before. }
    rewrite <- Hlist. unfold bind at 1.
    rewrite pass_loop_app, Hbefore.
    rewrite (pass_loop_resolution_raises _ policy after blocks w1 FetchingException);
      [reflexivity|].
    now rewrite (fetch_collections_other server _ _ _ _ Hreply H200 H404). }
  split; [exact Hrun|].
  rewrite Hrun. simpl.
  pose proof (keeps_pass_loop server sent (fun _ _ => eq_refl) before 0 [] w) as Hsent.
  now rewrite Hbefore in Hsent.
Qed.

End Pass.

(** *** Serving commands one after the other *)

Section Serving.

Variable server : service.

Lemma remove_keeps_nodup (g : Z) (p : string) (w : world) :
  NoDup (table w) -> NoDup (table (snd (remove g p w))).
Proof.
  intros Hnd. unfold remove, bind. rewrite policy_id_exists_run.
  destruct (tracked g p w); simpl; [|exact Hnd].
  now apply NoDup_filter.
Qed.

Lemma run_command_keeps_nodup (c : command) (w : world) :
  NoDup (table w) -> NoDup (table (snd (run_command server c w))).
Proof.
  intros Hnd. destruct c as [q | g | g p | g p]; simpl.
  - now rewrite (keeps_floor server table).
  - now rewrite (keeps_pass server table).
  - now apply insert_keeps_nodup.
  - now apply remove_keeps_nodup.
Qed.

(** Whatever commands are served, in whatever order and against whatever
    service, a table without duplicate rows never gets one. *)
Theorem no_duplicate_rows_ever (cs : list command) :
  forall w : world, NoDup (table w) -> NoDup (table (serve server cs w)).
Proof.
  induction cs as [| c rest IH]; intros w Hnd; simpl; [exact Hnd|].
  apply IH. now apply run_command_keeps_nodup.
Qed.

(** In a table without duplicate rows a server's list has no duplicate. *)
Lemma listing_nodup (g : Z) (w : world) : NoDup (table w) -> NoDup (listing g w).
Proof.
  unfold listing. induction (table w) as [| [g' p'] rows IH]; intros Hnd; simpl;
    [constructor|].
  apply NoDup_cons_iff in Hnd as [Hnotin Hnd].
  destruct (g' =? g) eqn:Eg; simpl; [|now apply IH].
  apply Z.eqb_eq in Eg. subst g'. constructor; [|now apply IH].
  intros Hin. apply in_map_iff in Hin as ([g2 p2] & Hsnd & Hin).
  apply filter_In in Hin as [Hin Hg]. simpl in *. apply Z.eqb_eq in Hg. subst.
  contradiction.
Qed.

(** C7, for commands served one after the other: after a track that
    reported success the server's list holds the policy id exactly once; a
    second track of the pair served after it, against any service, is
    rejected by the pre-check with no request and no write, as is every
    track of a pair that is already tracked; so a track that runs to its end
    before the next command starts never gives a table without duplicate
    rows a duplicate, and neither does any sequence of commands served in
    turn. *)
Theorem track_lists_once (g : Z) (p : string) (w : world) :
  let w' := snd (insert server g p w) in
  (succeeded w w' ->
     exists ids, fst (get_policy_ids g w') = Return ids /\
                 count_occ string_dec ids p = 1%nat) /\
  (succeeded w w' ->
     forall server' : service,
       insert server' g p w' =
         (Return tt, posted w' (ErrorEmbed "This policy id is already added!"))) /\
  (fst (policy_id_exists g p w) = Return true ->
     insert server g p w =
       (Return tt, posted w (ErrorEmbed "This policy id is already added!"))) /\
  (NoDup (table w) -> NoDup (table w')) /\
  (NoDup (table w) ->
     forall cs : list command, NoDup (table (serve server cs w'))).
Proof.
  intros w'. split; [|split; [|split; [|split]]].
  - intros Hs. apply insert_succeeded in Hs as [Hn Ht]. fold w' in Ht.
    exists (listing g w'). split; [reflexivity|].
    unfold listing. rewrite Ht, count_listing_app.
    now rewrite (count_listing_untracked _ _ _ Hn).
  - intros Hs server'. apply insert_succeeded in Hs as [_ Ht]. fold w' in Ht.
    rewrite insert_run.
    assert (Hin : tracked g p w' = true).
    { apply tracked_in. rewrite Ht. apply in_or_app. right. now left. }
    now rewrite Hin.
  - rewrite policy_id_exists_run. simpl. intros [= Ht].
    now rewrite insert_run, Ht.
  - apply insert_keeps_nodup.
  - intros Hnd cs. now apply no_duplicate_rows_ever, insert_keeps_nodup.
Qed.

(** X21: starting from the empty table, whatever commands are served, in
    whatever order and against whatever service, every list the bot ever
    holds has each policy id at most once. *)
Corollary listed_at_most_once (cs : list command) (g : Z) (p : string) :
  (count_occ string_dec (listing g (serve server cs (start []))) p <= 1)%nat.
Proof.
  apply NoDup_count_occ, listing_nodup, no_duplicate_rows_ever. constructor.
Qed.

End Serving.

(** *** Two tracks in flight *)

Import Flights.

Section Racing.

Variable server : service.

(** [insert] is its stages run one after the other. *)
Lemma insert_in_stages (g : Z) (p : string) (w : world) :
  insert server g p w = insert_staged server g p w.
Proof.
  unfold insert, insert_staged, bind. cbn [advance]. unfold bind.
  rewrite policy_id_exists_run.
  destruct (tracked g p w); [reflexivity|].
  unfold ret at 1. cbn [advance]. unfold try_except, bind.
  destruct (fetch_collections server p 1 w) as [[[| first others] | e] w1];
    try reflexivity.
  destruct (is_fetching e); reflexivity.
Qed.

(** An invocation that is given three turns in a row is finished, and has
    done what [insert] does. *)
Lemma flight_runs_insert (g : Z) (p : string) (w : world) :
  let '(f1, w1) := step_flight server (launch g p) w in
  let '(f2, w2) := step_flight server f1 w1 in
  step_flight server f2 w2 = (mkFlight g p Finished, snd (insert server g p w)).
Proof.
  unfold step_flight, launch, insert, bind. cbn [fl_guild fl_policy fl_stage advance].
  unfold bind. rewrite policy_id_exists_run.
  destruct (tracked g p w); [reflexivity|].
  unfold ret at 1. cbn [fl_guild fl_policy fl_stage advance]. unfold try_except, bind.
  destruct (fetch_collections server p 1 w) as [[[| first others] | e] w1];
    try reflexivity.
  destruct (is_fetching e); reflexivity.
Qed.

(** Run in turn, two invocations in flight are two commands served one after
    the other. *)
Lemma interleave_in_turn (g g' : Z) (p p' : string) (w : world) :
  interleave server in_turn (launch g p) (launch g' p') w =
    (mkFlight g p Finished, mkFlight g' p' Finished,
     serve server [CmdInsert g p; CmdInsert g' p'] w).
Proof.
  unfold in_turn. cbn [interleave serve run_command].
  pose proof (flight_runs_insert g p w) as Ha.
  destruct (step_flight server (launch g p) w) as [a1 w1].
  destruct (step_flight server a1 w1) as [a2 w2].
  rewrite Ha.
  pose proof (flight_runs_insert g' p' (snd (insert server g p w))) as Hb.
  destruct (step_flight server (launch g' p') _) as [b1 w3].
  destruct (step_flight server b1 w3) as [b2 w4].
  now rewrite Hb.
Qed.

End Racing.

(* ================================================================== *)
(** ** More properties *)
(* ================================================================== *)

From Stdlib Require Import Sorted.
Import Measures MoreSamples.

(** *** The reads, case by case *)

Section Reads.

Variable server : service.

(** [fetch_image_url] makes one request and touches nothing else. *)
Lemma fetch_image_url_world (c : Collection) (w : world) :
  snd (fetch_image_url server c w) = logged w (image_request c).
Proof.
  unfold fetch_image_url, bind, session_get.
  destruct (server (requests w) (image_request c)) as [resp | text]; [|reflexivity].
  by_status resp; try reflexivity.
  unfold json. destruct (payload resp) as [text | data]; simpl; [reflexivity|].
  destruct (falsy (get (j_thumbnail data))); [reflexivity|].
  now destruct (negb (contains slash (fmt (get (j_thumbnail data))))).
Qed.

(** The outcome of [fetch_last_sale] on a 200 reply with a parsed body. *)
Lemma fetch_last_sale_200 (self : Collection) (w : world) (resp : response)
    (data : body) :
  server (requests w) (last_sale_request self) = Reply resp ->
  status resp = 200 ->
  payload resp = inr data ->
  fst (fetch_last_sale server self w) =
    match get (j_transactions data) with
    | None => Return None
    | Some [] => Return None
    | Some (first :: _) =>
        match amount_lovelace first with
        | Missing => Raise (KeyError "amount_lovelace")
        | Null =>
            Raise (TypeError
              "int() argument must be a string, a bytes-like object or a real number, not 'NoneType'")
        | Val n =>
            match int_truediv n 1000000 with
            | Quotient x => Return (Some x)
            | DivisionByZero => Raise (ZeroDivisionError "division by zero")
            | DivisionOverflow =>
                Raise (OverflowError "integer division result too large for a float")
            end
        end
    end.
Proof.
  intros Hreply H200 Hp. unfold fetch_last_sale, bind.
  rewrite (session_get_reply _ _ _ _ Hreply), H200. simpl.
  unfold json. rewrite Hp. simpl.
  destruct (get (j_transactions data)) as [[| first others] |]; try reflexivity.
  destruct (amount_lovelace first) as [| | n]; simpl; try reflexivity.
  unfold truediv. now destruct (int_truediv n 1000000).
Qed.

(** What a read does with a reply whose status is not 200: the body is not
    looked at. *)
Lemma fetch_last_sale_not_200 (self : Collection) (w : world) (resp : response) :
  server (requests w) (last_sale_request self) = Reply resp ->
  status resp <> 200 ->
  fst (fetch_last_sale server self w) =
    if status resp =? 404 then Return None else Raise FetchingException.
Proof.
  intros Hreply H200. unfold fetch_last_sale, bind.
  rewrite (session_get_reply _ _ _ _ Hreply).
  apply Z.eqb_neq in H200. rewrite H200. now destruct (status resp =? 404).
Qed.

Lemma fetch_image_url_not_200 (self : Collection) (w : world) (resp : response) :
  server (requests w) (image_request self) = Reply resp ->
  status resp <> 200 ->
  fst (fetch_image_url server self w) =
    if status resp =? 404 then Return None else Raise FetchingException.
Proof.
  intros Hreply H200. unfold fetch_image_url, bind.
  rewrite (session_get_reply _ _ _ _ Hreply).
  apply Z.eqb_neq in H200. rewrite H200. now destruct (status resp =? 404).
Qed.

(** X1: on a reply, [fetch_last_sale] returns [None] for a 404 and for a 200
    whose [transactions] is missing, null or empty; for a 200 with
    transactions it converts the amount of the first one and ignores the
    others; a first transaction without [amount_lovelace] raises [KeyError];
    and it raises [FetchingException] exactly when the status is neither 200
    nor 404. *)
Theorem fetch_last_sale_spec (self : Collection) (w : world) (resp : response) :
  server (requests w) (last_sale_request self) = Reply resp ->
  let result := fst (fetch_last_sale server self w) in
  (status resp = 404 -> result = Return None) /\
  (forall data, status resp = 200 -> payload resp = inr data ->
     get (j_transactions data) = None \/ get (j_transactions data) = Some [] ->
     result = Return None) /\
  (forall data first others n x, status resp = 200 -> payload resp = inr data ->
     j_transactions data = Val (first :: others) ->
     amount_lovelace first = Val n -> int_truediv n 1000000 = Quotient x ->
     result = Return (Some x)) /\
  (forall data first others, status resp = 200 -> payload resp = inr data ->
     j_transactions data = Val (first :: others) ->
     amount_lovelace first = Missing ->
     result = Raise (KeyError "amount_lovelace")) /\
  (result = Raise FetchingException <-> status resp <> 200 /\ status resp <> 404).
Proof.
  intros Hreply result. subst result.
  split; [|split; [|split; [|split]]].
  - intros H404. rewrite (fetch_last_sale_not_200 _ _ _ Hreply) by lia.
    now rewrite H404.
  - intros data H200 Hp [Hn | Hn];
      now rewrite (fetch_last_sale_200 _ _ _ _ Hreply H200 Hp), Hn.
  - intros data first others n x H200 Hp Ht Ha Hq.
    rewrite (fetch_last_sale_200 _ _ _ _ Hreply H200 Hp), Ht. simpl.
    now rewrite Ha, Hq.
  - intros data first others H200 Hp Ht Ha.
    rewrite (fetch_last_sale_200 _ _ _ _ Hreply H200 Hp), Ht. simpl.
    now rewrite Ha.
  - split.
    + intros Hraise. destruct (Z.eq_dec (status resp) 200) as [H200 | H200].
      * exfalso. revert Hraise. unfold fetch_last_sale, bind.
        rewrite (session_get_reply _ _ _ _ Hreply), H200. simpl.
        unfold json. destruct (payload resp) as [text | data]; simpl; [discriminate|].
        destruct (get (j_transactions data)) as [[| first others] |]; simpl;
          try discriminate.
        destruct (amount_lovelace first) as [| | n]; simpl; try discriminate.
        unfold truediv. destruct (int_truediv n 1000000); simpl; discriminate.
      * split; [exact H200|]. intros H404.
        rewrite (fetch_last_sale_not_200 _ _ _ Hreply H200), H404 in Hraise.
        discriminate.
    + intros [H200 H404]. rewrite (fetch_last_sale_not_200 _ _ _ Hreply H200).
      apply Z.eqb_neq in H404. now rewrite H404.
Qed.

(** X2: on a 200 reply [fetch_collections] returns one [Collection] per
    element of the upstream array, in the upstream order, whatever [amount]
    was asked for: nothing is filtered, re-ranked or cut to [amount], and a
    missing or null attribute of an element comes out as [None]. *)
Theorem fetch_collections_keeps_every_hit (q : string) (amount : Z) (w : world)
    (resp : response) (data : body) (hits : list hit) :
  server (requests w) (search_request q amount) = Reply resp ->
  status resp = 200 ->
  payload resp = inr data ->
  j_collections data = Val hits ->
  exists cs,
    fst (fetch_collections server q amount w) = Return cs /\
    List.length cs = List.length hits /\
    (forall n h, nth_error hits n = Some h ->
       exists c, nth_error cs n = Some c /\
         name c = get (hit_url h) /\
         display_name c = get (hit_display_name h) /\
         policy_id c = get (hit_policy_id h)).
Proof.
  intros Hreply H200 Hp Hhits.
  exists (map collection_of_hit hits). split; [|split].
  - rewrite (fetch_collections_200 server _ _ _ _ _ Hreply H200 Hp), Hhits.
    reflexivity.
  - apply length_map.
  - intros n h Hn. exists (collection_of_hit h). split.
    + now apply map_nth_error.
    + repeat split.
Qed.

(** X22: a search returns no collection exactly when its reply has no hit:
    given a reply, [fetch_collections] returns the empty list if and only if
    the reply is a 404 or a 200 whose [collections] is missing, null or
    empty.  Every other reply either raises or yields at least one
    collection. *)
Theorem no_collection_exactly_on_zero_hits (q : string) (amount : Z) (w : world)
    (resp : response) :
  server (requests w) (search_request q amount) = Reply resp ->
  (fst (fetch_collections server q amount w) = Return [] <-> zero_hits resp).
Proof.
  intros Hreply. split.
  - intros Hempty.
    destruct (Z.eq_dec (status resp) 404) as [H404 | H404]; [now left|].
    destruct (Z.eq_dec (status resp) 200) as [H200 | H200].
    + right. split; [exact H200|].
      destruct (payload resp) as [text | data] eqn:Hp.
      * exfalso. revert Hempty. unfold fetch_collections, bind.
        rewrite (session_get_reply _ _ _ _ Hreply), H200. simpl.
        unfold json. rewrite Hp. discriminate.
      * exists data. split; [reflexivity|].
        rewrite (fetch_collections_200 server _ _ _ _ _ Hreply H200 Hp) in Hempty.
        simpl in Hempty. injection Hempty as Hempty.
        destruct (get (j_collections data)) as [[| h hs] |];
          [now right | discriminate | now left].
    + rewrite (fetch_collections_other server _ _ _ _ Hreply H200 H404) in Hempty.
      discriminate.
  - intros [H404 | (H200 & data & Hp & Hnone)].
    + now rewrite (fetch_collections_404 server _ _ _ _ Hreply H404).
    + rewrite (fetch_collections_200 server _ _ _ _ _ Hreply H200 Hp).
      now destruct Hnone as [-> | ->].
Qed.

(** X3: a reply whose status is not 200 is decided by the status alone, in
    all four reads: a 404 is the empty result and every other status raises
    [FetchingException]; the body is not read, so it may even fail to
    parse.  On a 200 whose body does not parse every read raises the HTTP
    library's error with its text, not [FetchingException]. *)
Theorem reads_decided_by_status (self : Collection) (q : string) (amount : Z)
    (w : world) (resp : response) :
  (status resp <> 200 ->
     (server (requests w) (floor_request self) = Reply resp ->
        fst (fetch_floor_price server self w) =
          if status resp =? 404 then Return None else Raise FetchingException) /\
     (server (requests w) (last_sale_request self) = Reply resp ->
        fst (fetch_last_sale server self w) =
          if status resp =? 404 then Return None else Raise FetchingException) /\
     (server (requests w) (image_request self) = Reply resp ->
        fst (fetch_image_url server self w) =
          if status resp =? 404 then Return None else Raise FetchingException) /\
     (server (requests w) (search_request q amount) = Reply resp ->
        fst (fetch_collections server q amount w) =
          if status resp =? 404 then Return [] else Raise FetchingException)) /\
  (forall text, status resp = 200 -> payload resp = inl text ->
     (server (requests w) (floor_request self) = Reply resp ->
        fst (fetch_floor_price server self w) = Raise (ClientError text)) /\
     (server (requests w) (last_sale_request self) = Reply resp ->
        fst (fetch_last_sale server self w) = Raise (ClientError text)) /\
     (server (requests w) (image_request self) = Reply resp ->
        fst (fetch_image_url server self w) = Raise (ClientError text)) /\
     (server (requests w) (search_request q amount) = Reply resp ->
        fst (fetch_collections server q amount w) = Raise (ClientError text))).
Proof.
  split.
  - intros H200. split; [|split; [|split]]; intros Hreply.
    + destruct (Z.eq_dec (status resp) 404) as [H404 | H404].
      * rewrite (fetch_floor_price_404 server _ _ _ Hreply H404). now rewrite H404.
      * rewrite (fetch_floor_price_other server _ _ _ Hreply H200 H404).
        apply Z.eqb_neq in H404. now rewrite H404.
    + now apply fetch_last_sale_not_200.
    + now apply fetch_image_url_not_200.
    + destruct (Z.eq_dec (status resp) 404) as [H404 | H404].
      * rewrite (fetch_collections_404 server _ _ _ _ Hreply H404). now rewrite H404.
      * rewrite (fetch_collections_other server _ _ _ _ Hreply H200 H404).
        apply Z.eqb_neq in H404. now rewrite H404.
  - intros text H200 Hp. split; [|split; [|split]]; intros Hreply.
    + unfold fetch_floor_price, bind.
      rewrite (session_get_reply _ _ _ _ Hreply), H200. simpl.
      unfold json. now rewrite Hp.
    + unfold fetch_last_sale, bind.
      rewrite (session_get_reply _ _ _ _ Hreply), H200. simpl.
      unfold json. now rewrite Hp.
    + unfold fetch_image_url, bind.
      rewrite (session_get_reply _ _ _ _ Hreply), H200. simpl.
      unfold json. now rewrite Hp.
    + unfold fetch_collections, bind.
      rewrite (session_get_reply _ _ _ _ Hreply), H200. simpl.
      unfold json. now rewrite Hp.
Qed.

(** X4: each of the four reads makes exactly one request, the one to its own
    endpoint, whatever the service does with it (a reply of any status, a
    body of any shape, a transport failure), and changes neither the table
    nor the messages: there is no retry and no second call. *)
Theorem reads_make_one_request (self : Collection) (q : string) (amount : Z)
    (w : world) :
  snd (fetch_floor_price server self w) = logged w (floor_request self) /\
  snd (fetch_last_sale server self w) = logged w (last_sale_request self) /\
  snd (fetch_image_url server self w) = logged w (image_request self) /\
  snd (fetch_collections server q amount w) = logged w (search_request q amount).
Proof.
  split; [|split; [|split]].
  - apply fetch_floor_price_world.
  - apply fetch_last_sale_world.
  - apply fetch_image_url_world.
  - apply fetch_collections_world.
Qed.

(** The last piece of [prefix/piece] is [piece] when [piece] has no
    separator. *)
Lemma last_piece_of_join (sep : ascii) (prefix piece : string) :
  contains sep piece = false ->
  last_piece (split sep (prefix ++ String sep piece)) = piece.
Proof.
  intros Hclean. induction prefix as [| a rest IH]; simpl.
  - rewrite Ascii.eqb_refl.
    rewrite (last_piece_cons _ _ (split_nonempty sep piece)).
    now rewrite (split_without_sep sep piece Hclean).
  - pose proof (split_nonempty sep (rest ++ String sep piece)) as Hne.
    destruct (Ascii.eqb a sep).
    + now rewrite (last_piece_cons _ _ Hne).
    + destruct (split sep (rest ++ String sep piece)) as [| x [| y ys]] eqn:Es;
        [contradiction | |].
      * apply split_single in Es. exfalso.
        clear -Es. induction rest as [| b rest IH]; simpl in Es.
        -- rewrite Ascii.eqb_refl in Es. discriminate.
        -- apply orb_false_iff in Es as [_ Es]. auto.
      * rewrite (last_piece_cons _ (y :: ys)) in * by discriminate. exact IH.
Qed.

Lemma contains_join (sep : ascii) (prefix piece : string) :
  contains sep (prefix ++ String sep piece) = true.
Proof.
  induction prefix as [| a rest IH]; simpl.
  - now rewrite Ascii.eqb_refl.
  - rewrite IH. apply orb_true_r.
Qed.

(** X5: the image URL is made of the last path segment alone: for every
    thumbnail of the form [prefix/segment], with no ['/'] in [segment],
    [fetch_image_url] returns the gateway prefix followed by [segment],
    whatever [prefix] is.  So two thumbnails with the same last segment get
    the same URL, and a thumbnail that ends with ['/'] gets the bare gateway
    prefix rather than no URL. *)
Theorem image_url_from_last_segment (self : Collection) (w : world) (resp : response)
    (data : body) (prefix segment : string) :
  server (requests w) (image_request self) = Reply resp ->
  status resp = 200 ->
  payload resp = inr data ->
  j_thumbnail data = Val (prefix ++ String slash segment) ->
  contains slash segment = false ->
  fst (fetch_image_url server self w) = Return (Some (gateway ++ segment)).
Proof.
  intros Hreply H200 Hp Ht Hclean.
  unfold fetch_image_url, bind.
  rewrite (session_get_reply _ _ _ _ Hreply), H200. simpl.
  unfold json. rewrite Hp. simpl. rewrite Ht. cbn [get].
  assert (Hfalsy : falsy (Some (prefix ++ String slash segment)) = false).
  { destruct prefix; reflexivity. }
  rewrite Hfalsy. cbn [fmt].
  rewrite contains_join. simpl negb. cbv iota.
  now rewrite last_piece_of_join.
Qed.

End Reads.

(** *** How many requests a command makes *)

Section Budget.

Lemma grows_ret {A} (a : A) : grows_by 0 (ret a).
Proof. intros w. exists []. simpl. now rewrite app_nil_r. Qed.

Lemma grows_raise {A} (e : exn) : grows_by 0 (@raise A e).
Proof. intros w. exists []. simpl. now rewrite app_nil_r. Qed.

Lemma grows_weaken {A} (n n' : nat) (m : M A) :
  (n <= n')%nat -> grows_by n m -> grows_by n' m.
Proof.
  intros Hle Hm w. destruct (Hm w) as (extra & Hreq & Hlen).
  exists extra. split; [exact Hreq | lia].
Qed.

Lemma grows_bind {A B} (a b : nat) (m : M A) (k : A -> M B) :
  grows_by a m -> (forall x, grows_by b (k x)) -> grows_by (a + b) (bind m k).
Proof.
  intros Hm Hk w. unfold bind. destruct (Hm w) as (extra & Hreq & Hlen).
  destruct (m w) as [[x | e] w1]; simpl in *.
  - destruct (Hk x w1) as (extra' & Hreq' & Hlen').
    exists (extra ++ extra')%list. split.
    + now rewrite Hreq', Hreq, app_assoc.
    + rewrite length_app. lia.
  - exists extra. split; [exact Hreq | lia].
Qed.

Lemma grows_try_except {A B} (a b : nat) (m : M A) (handler : exn -> M B)
    (k : A -> M B) :
  grows_by a m -> (forall e, grows_by b (handler e)) -> (forall x, grows_by b (k x)) ->
  grows_by (a + b) (try_except m handler k).
Proof.
  intros Hm Hh Hk w. unfold try_except. destruct (Hm w) as (extra & Hreq & Hlen).
  destruct (m w) as [[x | e] w1]; simpl in *.
  - destruct (Hk x w1) as (extra' & Hreq' & Hlen').
    exists (extra ++ extra')%list. split.
    + now rewrite Hreq', Hreq, app_assoc.
    + rewrite length_app. lia.
  - destruct (Hh e w1) as (extra' & Hreq' & Hlen').
    exists (extra ++ extra')%list. split.
    + now rewrite Hreq', Hreq, app_assoc.
    + rewrite length_app. lia.
Qed.

(** A computation that leaves the log alone makes no request. *)
Lemma grows_of_keeps {A} (m : M A) : keeps requests m -> grows_by 0 m.
Proof. intros Hk w. exists []. rewrite (Hk w). now rewrite app_nil_r. Qed.

Lemma grows_send (msg : message) : grows_by 0 (send msg).
Proof. apply grows_of_keeps. intros w. reflexivity. Qed.

Variable server : service.

Lemma grows_session_get (req : request) : grows_by 1 (session_get server req).
Proof.
  intros w. exists [req]. split; [|simpl; lia].
  unfold session_get. now destruct (server (requests w) req).
Qed.

Lemma grows_fetch_collections (q : string) (amount : Z) :
  grows_by 1 (fetch_collections server q amount).
Proof.
  intros w. exists [search_request q amount]. split; [|simpl; lia].
  now rewrite fetch_collections_world.
Qed.

Lemma grows_fetch_floor_price (c : Collection) : grows_by 1 (fetch_floor_price server c).
Proof.
  intros w. exists [floor_request c]. split; [|simpl; lia].
  now rewrite fetch_floor_price_world.
Qed.

Lemma grows_fetch_last_sale (c : Collection) : grows_by 1 (fetch_last_sale server c).
Proof.
  intros w. exists [last_sale_request c]. split; [|simpl; lia].
  now rewrite fetch_last_sale_world.
Qed.

Lemma grows_floor_step (c : Collection) : grows_by 1 (floor_step server c).
Proof.
  unfold floor_step. apply (grows_try_except 1 0).
  - apply grows_fetch_floor_price.
  - intros e. destruct (is_fetching e); [apply grows_send | apply grows_raise].
  - intros [price |]; apply grows_send.
Qed.

Lemma grows_floor_loop (cs : list Collection) :
  grows_by (List.length cs) (floor_loop server cs).
Proof.
  induction cs as [| c rest IH]; simpl; [apply grows_ret|].
  apply (grows_bind 1 (List.length rest)); [apply grows_floor_step | intros _; exact IH].
Qed.

(** The part of a turn of the report loop after the composite read. *)
Lemma grows_pass_loop (policy_ids : list string) :
  forall index description,
  grows_by (3 * List.length policy_ids) (pass_loop server index policy_ids description).
Proof.
  induction policy_ids as [| policy rest IH]; intros index description; simpl pass_loop.
  - apply grows_ret.
  - replace (3 * List.length (policy :: rest))%nat
      with (1 + (1 + (1 + 3 * List.length rest)))%nat by (simpl; lia).
    apply (grows_bind 1); [apply grows_fetch_collections|].
    intros [| c cs].
    { eapply grows_weaken; [|apply IH]. lia. }
    apply (grows_bind 1); [apply grows_session_get|]. intros resp.
    destruct (status resp =? 404).
    { eapply grows_weaken; [|apply IH]. lia. }
    destruct (negb (status resp =? 200)).
    { eapply grows_weaken; [|apply IH]. lia. }
    apply (grows_bind 0); [apply grows_of_keeps, keeps_json|]. intros data.
    apply (grows_bind 0); [apply grows_of_keeps, keeps_subscript|]. intros raw_floor.
    apply (grows_bind 0); [apply grows_of_keeps, keeps_json_truediv|]. intros floor_price.
    apply (grows_bind 0); [apply grows_of_keeps, keeps_subscript|]. intros supply.
    apply (grows_bind 0); [apply grows_of_keeps, keeps_subscript|]. intros raw_volume.
    apply (grows_bind 0).
    { apply grows_of_keeps. unfold volume_of, to_major.
      apply keeps_bind; [apply keeps_json_truediv | intro; apply keeps_round_float]. }
    intros volume.
    apply (grows_bind 1 (3 * List.length rest)); [apply grows_fetch_last_sale|].
    intros last_sale. apply IH.
Qed.

(** X6: the request budget of the four commands.  The report command makes
    at most three requests per tracked id, the floor lookup at most one per
    search hit after its search, [insert] at most one, and [remove] none; in
    every case, also when the command raises, the requests made before it
    stay in the log in their order. *)
Theorem request_budget (g : Z) (p q : string) (w : world) :
  (exists extra,
     requests (snd (_pass server g w)) = (requests w ++ extra)%list /\
     (List.length extra <= 3 * List.length (listing g w))%nat) /\
  (exists extra,
     requests (snd (floor server q w)) = (requests w ++ extra)%list /\
     (List.length extra <=
        1 + match fst (fetch_collections server q 5 w) with
            | Return cs => List.length cs
            | Raise _ => 0
            end)%nat) /\
  (exists extra,
     requests (snd (insert server g p w)) = (requests w ++ extra)%list /\
     (List.length extra <= 1)%nat) /\
  requests (snd (remove g p w)) = requests w.
Proof.
  split; [|split; [|split]].
  - unfold _pass, bind. rewrite get_policy_ids_run.
    destruct (listing g w) as [| p0 ps] eqn:Hl.
    + exists []. simpl. now rewrite app_nil_r.
    + destruct (grows_pass_loop (p0 :: ps) 0 [] w) as (extra & Hreq & Hlen).
      exists extra. split; [|exact Hlen].
      destruct (pass_loop server 0 (p0 :: ps) [] w) as [[blocks | e] w1]; exact Hreq.
  - unfold floor, try_except.
    rewrite (fetch_collections_run server q 5 w _ eq_refl).
    destruct (fst (fetch_collections server q 5 w)) as [[| c cs] | e].
    + exists [search_request q 5]. split; [reflexivity | simpl; lia].
    + destruct (grows_floor_loop (c :: cs) (logged w (search_request q 5)))
        as (extra & Hreq & Hlen).
      exists (search_request q 5 :: extra). split.
      * rewrite Hreq. simpl. now rewrite <- app_assoc.
      * simpl in *. lia.
    + exists [search_request q 5]. split; [|simpl; lia].
      now destruct (is_fetching e).
  - rewrite insert_run. destruct (tracked g p w).
    + exists []. split; [simpl; now rewrite app_nil_r | simpl; lia].
    + exists [search_request p 1]. split; [|simpl; lia].
      now destruct (fst (fetch_collections server p 1 w)) as [[| c cs] | e].
  - unfold remove, bind. rewrite policy_id_exists_run.
    now destruct (tracked g p w).
Qed.

End Budget.

(** *** The floor lookup, when things go wrong *)

Section FloorFailures.

Variable server : service.

(** X7: a search that fails never makes the floor lookup raise: it answers
    with one message and stops after its one request.  A status other than
    200 and 404 gives the fetch-error message; a transport failure, or a 200
    whose body does not parse, gives the unexpected-error message, which
    ends with the text of the library's error. *)
Theorem floor_answers_resolution_failure (q : string) (w : world) :
  let w1 := logged w (search_request q 5) in
  (forall resp, server (requests w) (search_request q 5) = Reply resp ->
     status resp <> 200 -> status resp <> 404 ->
     floor server q w =
       (Return tt,
        posted w1 (ErrorEmbed "There was an error when fetching the collections!"))) /\
  (forall text, server (requests w) (search_request q 5) = Failed text ->
     floor server q w =
       (Return tt,
        posted w1 (ErrorEmbed
          ("There was an unexpected error when fetching the collections:"
           ++ newline ++ text)))) /\
  (forall resp text, server (requests w) (search_request q 5) = Reply resp ->
     status resp = 200 -> payload resp = inl text ->
     floor server q w =
       (Return tt,
        posted w1 (ErrorEmbed
          ("There was an unexpected error when fetching the collections:"
           ++ newline ++ text)))).
Proof.
  intros w1. split; [|split].
  - intros resp Hreply H200 H404. unfold floor, try_except.
    now rewrite (fetch_collections_other server _ _ _ _ Hreply H200 H404).
  - intros text Hfail. unfold floor, try_except, fetch_collections, bind.
    now rewrite (session_get_failed server _ _ _ Hfail).
  - intros resp text Hreply H200 Hp. unfold floor, try_except, fetch_collections, bind.
    rewrite (session_get_reply server _ _ _ Hreply), H200. simpl.
    unfold json. now rewrite Hp.
Qed.

(** The loop over a list in two parts. *)
Lemma floor_loop_app (before after : list Collection) :
  forall w : world,
  floor_loop server (before ++ after) w =
    match floor_loop server before w with
    | (Return _, w1) => floor_loop server after w1
    | (Raise e, w1) => (Raise e, w1)
    end.
Proof.
  induction before as [| c before IH]; intros w; [reflexivity|].
  cbn [app]. rewrite !floor_loop_cons.
  destruct (floor_step server c w) as [[[] | e] w1]; [apply IH | reflexivity].
Qed.

(** X8: when the fetch of one candidate raises something the loop does not
    catch, the lookup ends with that exception, but what was sent for the
    candidates before it stays sent: one message for each of them, none for
    the failing candidate and none for those after it, which are not
    fetched. *)
Theorem floor_keeps_answers_before_abort (before : list Collection) (c : Collection)
    (after : list Collection) (w : world) (e : exn) :
  (forall n c', nth_error before n = Some c' ->
     handled (fst (fetch_floor_price server c'
                     (after_requests w (map floor_request (firstn n before)))))) ->
  fst (fetch_floor_price server c (after_requests w (map floor_request before)))
    = Raise e ->
  is_fetching e = false ->
  exists entries : list message,
    floor_loop server (before ++ c :: after) w =
      (Raise e,
       mkWorld (table w) (requests w ++ map floor_request (before ++ [c]))%list
               (sent w ++ entries)%list) /\
    List.length entries = List.length before.
Proof.
  intros Hbefore Hraise Hother.
  destruct (floor_loop_handled server before w Hbefore) as (entries & Hrun & Hlen & _).
  exists entries. split; [|exact Hlen].
  rewrite floor_loop_app, Hrun.
  set (w1 := mkWorld (table w) (requests w ++ map floor_request before)%list
                     (sent w ++ entries)%list).
  assert (He : fst (fetch_floor_price server c w1) = Raise e).
  { rewrite <- Hraise. now apply fetch_floor_price_log. }
  rewrite (floor_loop_stops server c after w1 e He Hother).
  unfold logged, w1. simpl. now rewrite map_app, app_assoc.
Qed.

(** What the fetch raises on the replies the loop has no handler for. *)
Lemma fetch_floor_price_failed (c : Collection) (w : world) (text : string) :
  server (requests w) (floor_request c) = Failed text ->
  fst (fetch_floor_price server c w) = Raise (ClientError text).
Proof.
  intros Hfail. unfold fetch_floor_price, bind.
  now rewrite (session_get_failed server _ _ _ Hfail).
Qed.

Lemma fetch_floor_price_unparsed (c : Collection) (w : world) (resp : response)
    (text : string) :
  server (requests w) (floor_request c) = Reply resp ->
  status resp = 200 -> payload resp = inl text ->
  fst (fetch_floor_price server c w) = Raise (ClientError text).
Proof.
  intros Hreply H200 Hp. unfold fetch_floor_price, bind.
  rewrite (session_get_reply server _ _ _ Hreply), H200. simpl.
  unfold json. now rewrite Hp.
Qed.

(** The lookup, when the fetch of one resolved candidate raises something
    the loop does not catch. *)
Lemma floor_stops_at (q : string) (w : world) (before : list Collection)
    (c : Collection) (after : list Collection) (e : exn) :
  fst (fetch_collections server q 5 w) = Return (before ++ c :: after)%list ->
  (forall n c', nth_error before n = Some c' ->
     handled (fst (fetch_floor_price server c'
                     (after_requests (logged w (search_request q 5))
                        (map floor_request (firstn n before)))))) ->
  fst (fetch_floor_price server c
         (after_requests (logged w (search_request q 5)) (map floor_request before)))
    = Raise e ->
  is_fetching e = false ->
  exists entries : list message,
    floor server q w =
      (Raise e,
       mkWorld (table w)
               (requests (logged w (search_request q 5))
                ++ map floor_request (before ++ [c]))%list
               (sent w ++ entries)%list) /\
    List.length entries = List.length before.
Proof.
  intros Hres Hbefore Hraise Hother.
  set (w1 := logged w (search_request q 5)) in *.
  destruct (floor_loop_handled server before w1 Hbefore) as (entries & Hrun & Hlen & _).
  exists entries. split; [|exact Hlen].
  unfold floor, try_except. rewrite (fetch_collections_run server _ _ _ _ Hres). fold w1.
  assert (Hloop : floor_loop server (before ++ c :: after) w1 =
                  (Raise e,
                   mkWorld (table w) (requests w1 ++ map floor_request (before ++ [c]))%list
                           (sent w ++ entries)%list)).
  { rewrite floor_loop_app, Hrun.
    set (w2 := mkWorld (table w1) (requests w1 ++ map floor_request before)%list
                       (sent w1 ++ entries)%list).
    assert (He : fst (fetch_floor_price server c w2) = Raise e).
    { rewrite <- Hraise. now apply fetch_floor_price_log. }
    rewrite (floor_loop_stops server c after w2 e He Hother).
    unfold logged, w2. simpl. now rewrite map_app, app_assoc. }
  destruct (before ++ c :: after)%list as [| c0 cs] eqn:Hlist.
  { now destruct before. }
  exact Hloop.
Qed.

(** C2, where the code departs from it: the loop of the floor lookup catches
    [FetchingException] only.  When the search resolved the candidates
    [before ++ c :: after], the fetches of [before] went as the loop expects,
    and the floor read of [c] is a 200 whose body has no [floor] key, or a
    200 whose floor is too large for a float, or a 200 whose body does not
    parse, or a transport failure, then the fetch raises [KeyError],
    [OverflowError] or the library's error, and the command ends with that
    exception: the candidates of [before] have their messages, [c] gets no
    message, so no error entry, and the candidates of [after] are neither
    fetched nor answered.  The same holds for whatever else the fetch raises
    that is not [FetchingException]. *)
Theorem floor_aborts_on_unhandled_fetch (q : string) (w : world)
    (before : list Collection) (c : Collection) (after : list Collection) :
  fst (fetch_collections server q 5 w) = Return (before ++ c :: after)%list ->
  let w1 := logged w (search_request q 5) in
  let wc := after_requests w1 (map floor_request before) in
  (forall n c', nth_error before n = Some c' ->
     handled (fst (fetch_floor_price server c'
                     (after_requests w1 (map floor_request (firstn n before)))))) ->
  let aborts_with (e : exn) :=
    exists entries : list message,
      floor server q w =
        (Raise e,
         mkWorld (table w) (requests w1 ++ map floor_request (before ++ [c]))%list
                 (sent w ++ entries)%list) /\
      List.length entries = List.length before in
  (forall resp data, server (requests wc) (floor_request c) = Reply resp ->
     status resp = 200 -> payload resp = inr data -> j_floor data = Missing ->
     aborts_with (KeyError "floor")) /\
  (forall resp data n, server (requests wc) (floor_request c) = Reply resp ->
     status resp = 200 -> payload resp = inr data -> j_floor data = Val n ->
     int_truediv n 1000000 = DivisionOverflow ->
     aborts_with (OverflowError "integer division result too large for a float")) /\
  (forall resp text, server (requests wc) (floor_request c) = Reply resp ->
     status resp = 200 -> payload resp = inl text ->
     aborts_with (ClientError text)) /\
  (forall text, server (requests wc) (floor_request c) = Failed text ->
     aborts_with (ClientError text)) /\
  (forall e, fst (fetch_floor_price server c wc) = Raise e -> is_fetching e = false ->
     aborts_with e).
Proof.
  intros Hres w1 wc Hbefore aborts_with. subst aborts_with. cbv beta.
  split; [|split; [|split; [|split]]].
  - intros resp data Hreply H200 Hp Hf.
    apply (floor_stops_at q w before c after _ Hres Hbefore); [|reflexivity].
    fold w1. fold wc. now rewrite (fetch_floor_price_200 server _ _ _ _ Hreply H200 Hp), Hf.
  - intros resp data n Hreply H200 Hp Hf Hq.
    apply (floor_stops_at q w before c after _ Hres Hbefore); [|reflexivity].
    fold w1. fold wc.
    now rewrite (fetch_floor_price_200 server _ _ _ _ Hreply H200 Hp), Hf, Hq.
  - intros resp text Hreply H200 Hp.
    apply (floor_stops_at q w before c after _ Hres Hbefore); [|reflexivity].
    fold w1. fold wc. now apply (fetch_floor_price_unparsed c wc resp).
  - intros text Hfail.
    apply (floor_stops_at q w before c after _ Hres Hbefore); [|reflexivity].
    fold w1. fold wc. now apply fetch_floor_price_failed.
  - intros e Hraise Hother.
    now apply (floor_stops_at q w before c after _ Hres Hbefore).
Qed.

(** A turn of the loop that returns has sent one message. *)
Lemma floor_step_returns (c : Collection) (w w1 : world) :
  floor_step server c w = (Return tt, w1) ->
  exists msg, sent w1 = (sent w ++ [msg])%list.
Proof.
  unfold floor_step, try_except.
  pose proof (fetch_floor_price_world server c w) as Hw.
  destruct (fetch_floor_price server c w) as [[[price |] | e] w2]; simpl in Hw; subst w2.
  - intros [= <-]. now eexists.
  - intros [= <-]. now eexists.
  - destruct (is_fetching e); [|discriminate]. intros [= <-]. now eexists.
Qed.

Lemma floor_loop_returns (cs : list Collection) :
  forall w w1 : world,
  floor_loop server cs w = (Return tt, w1) ->
  exists msgs, sent w1 = (sent w ++ msgs)%list /\ List.length msgs = List.length cs.
Proof.
  induction cs as [| c rest IH]; intros w w1.
  - intros [= <-]. exists []. now rewrite app_nil_r.
  - rewrite floor_loop_cons.
    destruct (floor_step server c w) as [[[] | e] w2] eqn:Hstep; [|discriminate].
    intros Hrest. destruct (floor_step_returns c w w2 Hstep) as [msg Hmsg].
    destruct (IH w2 w1 Hrest) as (msgs & Hsent & Hlen).
    exists (msg :: msgs). split.
    + rewrite Hsent, Hmsg. now rewrite <- app_assoc.
    + simpl. now rewrite Hlen.
Qed.

End FloorFailures.

(** *** Answers and writes of the commands *)

Section Answers.

Variable server : service.

(** X9: a command that returns has answered.  [insert] and [remove] never
    raise and send exactly one message; the report command sends exactly one
    message when it returns and none when it raises; the floor lookup, when
    it returns, has sent one message per search hit, and one message when
    there was no hit or the search failed. *)
Theorem commands_always_answer (g : Z) (p q : string) (w : world) :
  (fst (insert server g p w) = Return tt /\
   exists msg, sent (snd (insert server g p w)) = (sent w ++ [msg])%list) /\
  (fst (remove g p w) = Return tt /\
   exists msg, sent (snd (remove g p w)) = (sent w ++ [msg])%list) /\
  (match fst (_pass server g w) with
   | Return _ => exists msg, sent (snd (_pass server g w)) = (sent w ++ [msg])%list
   | Raise _ => sent (snd (_pass server g w)) = sent w
   end) /\
  (fst (floor server q w) = Return tt ->
   exists msgs,
     sent (snd (floor server q w)) = (sent w ++ msgs)%list /\
     List.length msgs =
       match fst (fetch_collections server q 5 w) with
       | Return (c :: cs) => List.length (c :: cs)
       | _ => 1%nat
       end).
Proof.
  split; [|split; [|split]].
  - rewrite insert_run. destruct (tracked g p w).
    + split; [reflexivity | now eexists].
    + destruct (fst (fetch_collections server p 1 w)) as [[| c cs] | e];
        (split; [reflexivity | now eexists]).
  - unfold remove, bind. rewrite policy_id_exists_run.
    destruct (tracked g p w); simpl; (split; [reflexivity | now eexists]).
  - unfold _pass, bind. rewrite get_policy_ids_run.
    destruct (listing g w) as [| p0 ps]; [simpl; now eexists|].
    pose proof (keeps_pass_loop server sent (fun _ _ => eq_refl) (p0 :: ps) 0 [] w)
      as Hsent.
    destruct (pass_loop server 0 (p0 :: ps) [] w) as [[blocks | e] w1]; simpl in *.
    + rewrite Hsent. now eexists.
    + exact Hsent.
  - unfold floor, try_except.
    rewrite (fetch_collections_run server q 5 w _ eq_refl).
    destruct (fst (fetch_collections server q 5 w)) as [[| c cs] | e].
    + intros _. exists [ErrorEmbed (not_found_text q)]. now split.
    + intros Hret.
      destruct (floor_loop server (c :: cs) (logged w (search_request q 5)))
        as [[[] | e] w1] eqn:Hloop; [|discriminate].
      destruct (floor_loop_returns server (c :: cs) _ _ Hloop) as (msgs & Hs & Hl).
      exists msgs. now split.
    + intros _. destruct (is_fetching e); eexists; now split.
Qed.

(** X10: the two lookups never write: whatever the services answer, and
    also when the command raises half-way, the table after the floor lookup
    and after the report command is the table before it. *)
Theorem lookups_never_write (g : Z) (q : string) (w : world) :
  table (snd (floor server q w)) = table w /\
  table (snd (_pass server g w)) = table w.
Proof.
  split.
  - apply (keeps_floor server table); reflexivity.
  - apply (keeps_pass server table); reflexivity.
Qed.

End Answers.

(** *** Lists per server *)

Section Lists.

Variable server : service.

Lemma listing_app (g : Z) (rows rows' : list row) :
  map snd (filter (fun r => fst r =? g) (rows ++ rows')) =
  (map snd (filter (fun r => fst r =? g) rows)
   ++ map snd (filter (fun r => fst r =? g) rows'))%list.
Proof. now rewrite filter_app, map_app. Qed.

(** The table after [insert] and after [remove], in every case. *)
Lemma insert_table (g : Z) (p : string) (w : world) :
  table (snd (insert server g p w)) = table w \/
  table (snd (insert server g p w)) = (table w ++ [(g, p)])%list.
Proof.
  rewrite insert_run. destruct (tracked g p w); [now left|].
  destruct (fst (fetch_collections server p 1 w)) as [[| c cs] | e];
    [now left | now right | now left].
Qed.

Lemma remove_table (g : Z) (p : string) (w : world) :
  table (snd (remove g p w)) =
    filter (fun r => negb (same_row g p r)) (table w).
Proof.
  unfold remove, bind. rewrite policy_id_exists_run.
  destruct (tracked g p w) eqn:Ht; [reflexivity|].
  simpl. symmetry. now apply delete_untracked.
Qed.

(** X11: tracking is per server.  Neither [insert] nor [remove] for one
    server changes what another server lists or whether another server
    tracks an id, whatever the outcome of the command; and [remove] leaves
    the other ids of its own server listed. *)
Theorem tracking_is_per_server (g g' : Z) (p p' : string) (w : world) :
  g' <> g ->
  listing g' (snd (insert server g p w)) = listing g' w /\
  listing g' (snd (remove g p w)) = listing g' w /\
  tracked g' p' (snd (insert server g p w)) = tracked g' p' w /\
  tracked g' p' (snd (remove g p w)) = tracked g' p' w /\
  (p' <> p -> tracked g p' (snd (remove g p w)) = tracked g p' w).
Proof.
  intros Hg.
  assert (Hkeep : forall q r, (fst r = g' /\ True) \/ (fst r = g /\ snd r = q /\ q <> p) ->
                              negb (same_row g p r) = true).
  { intros q [g0 p0] [[Hfst _] | (Hfst & Hsnd & Hq)]; simpl in *; unfold same_row; simpl.
    - subst g0. apply Z.eqb_neq in Hg. now rewrite Hg.
    - subst. apply String.eqb_neq in Hq. rewrite Hq. now rewrite andb_false_r. }
  assert (Hfilter : forall rows,
             filter (fun r => fst r =? g') (filter (fun r => negb (same_row g p r)) rows)
             = filter (fun r => fst r =? g') rows).
  { induction rows as [| r rows IH]; [reflexivity|]. simpl.
    destruct (fst r =? g') eqn:Er.
    - apply Z.eqb_eq in Er. rewrite (Hkeep p r) by (left; now split).
      simpl. apply Z.eqb_eq in Er. now rewrite Er, IH.
    - destruct (negb (same_row g p r)); simpl; [now rewrite Er, IH | exact IH]. }
  assert (Hexists : forall g0 p0 rows,
             (g0 = g' \/ (g0 = g /\ p0 <> p)) ->
             existsb (same_row g0 p0) (filter (fun r => negb (same_row g p r)) rows)
             = existsb (same_row g0 p0) rows).
  { intros g0 p0 rows Hcase. induction rows as [| r rows IH]; [reflexivity|]. simpl.
    destruct (same_row g0 p0 r) eqn:Er.
    - apply same_row_spec in Er. subst r.
      rewrite (Hkeep p0 (g0, p0)).
      + simpl. unfold same_row at 1. simpl. now rewrite Z.eqb_refl, String.eqb_refl.
      + destruct Hcase as [-> | [-> Hp]]; [left; now split | right; now repeat split].
    - destruct (negb (same_row g p r)); simpl; [now rewrite Er, IH | exact IH]. }
  split; [|split; [|split; [|split]]].
  - unfold listing. destruct (insert_table g p w) as [-> | ->]; [reflexivity|].
    rewrite listing_app. simpl. apply Z.eqb_neq in Hg.
    rewrite Z.eqb_sym in Hg. rewrite Hg. simpl. apply app_nil_r.
  - unfold listing. now rewrite remove_table, Hfilter.
  - unfold tracked. destruct (insert_table g p w) as [-> | ->]; [reflexivity|].
    rewrite existsb_app. simpl. unfold same_row at 2. simpl.
    apply Z.eqb_neq in Hg. rewrite Z.eqb_sym in Hg. rewrite Hg. simpl.
    now rewrite !orb_false_r.
  - unfold tracked. rewrite remove_table. apply Hexists. now left.
  - intros Hp. unfold tracked. rewrite remove_table. apply Hexists. right. now split.
Qed.

(** X12: a server's list is kept in insertion order.  A track that reports
    success puts the id at the end of the server's list; an untrack removes
    every occurrence of the id and leaves the others in their order. *)
Theorem list_keeps_insertion_order (g : Z) (p : string) (w : world) :
  (succeeded w (snd (insert server g p w)) ->
     listing g (snd (insert server g p w)) = (listing g w ++ [p])%list) /\
  listing g (snd (remove g p w)) =
    filter (fun x => negb (String.eqb x p)) (listing g w).
Proof.
  split.
  - intros Hs. apply insert_succeeded in Hs as [_ Ht].
    unfold listing. rewrite Ht, listing_app. simpl. now rewrite Z.eqb_refl.
  - unfold listing. rewrite remove_table.
    induction (table w) as [| [g0 p0] rows IH]; [reflexivity|].
    cbn [filter].
    assert (Hrow : same_row g p (g0, p0) = (g0 =? g) && String.eqb p0 p) by reflexivity.
    rewrite Hrow. cbn [fst].
    destruct (g0 =? g) eqn:Eg; cbn [andb negb].
    + destruct (String.eqb p0 p) eqn:Ep; cbn [negb filter fst map snd].
      * rewrite Ep. cbn [negb]. exact IH.
      * rewrite Eg, Ep. cbn [negb map snd]. now rewrite IH.
    + cbn [filter fst]. rewrite Eg. exact IH.
Qed.

(** X13: track then untrack is a round trip.  After a track that reported
    success, the untrack of the same pair reports success, makes no request,
    and leaves the table exactly as it was before the track. *)
Theorem track_untrack_round_trip (g : Z) (p : string) (w : world) :
  let w1 := snd (insert server g p w) in
  succeeded w w1 ->
  table (snd (remove g p w1)) = table w /\
  requests (snd (remove g p w1)) = requests w1 /\
  remove g p w1 =
    (Return tt,
     posted (mkWorld (table w) (requests w1) (sent w1))
       (SuccessEmbed ("Successfully removed **" ++ p
                      ++ "** from the list of policy ids!"))).
Proof.
  intros w1 Hs. apply insert_succeeded in Hs as [Hn Ht]. fold w1 in Ht.
  assert (Htracked : tracked g p w1 = true).
  { apply tracked_in. rewrite Ht. apply in_or_app. right. now left. }
  assert (Hback : filter (fun r => negb (same_row g p r)) (table w1) = table w).
  { rewrite Ht, filter_app. simpl.
    assert (Hself : same_row g p (g, p) = true) by now apply same_row_spec.
    rewrite Hself. simpl. rewrite app_nil_r. now apply delete_untracked. }
  assert (Hrun : remove g p w1 =
    (Return tt,
     posted (mkWorld (table w) (requests w1) (sent w1))
       (SuccessEmbed ("Successfully removed **" ++ p
                      ++ "** from the list of policy ids!")))).
  { unfold remove, bind. rewrite policy_id_exists_run, Htracked. simpl.
    unfold execute_delete. now rewrite Hback. }
  rewrite Hrun. repeat split.
Qed.

(** X14: untrack is idempotent.  After an untrack, whatever it found, a
    second untrack of the same pair changes nothing in the table and answers
    that the id is not added. *)
Theorem untrack_twice (g : Z) (p : string) (w : world) :
  let w1 := snd (remove g p w) in
  remove g p w1 = (Return tt, posted w1 (ErrorEmbed "This policy id is not added!")).
Proof.
  intros w1.
  assert (Hgone : tracked g p w1 = false).
  { unfold tracked, w1. rewrite remove_table. apply delete_removes. }
  unfold remove, bind. now rewrite policy_id_exists_run, Hgone.
Qed.

(** X15: what [insert] answers, by what the search for the policy id meets.
    An id that is already tracked is refused without a request; otherwise a
    status other than 200 and 404 gives the fetch-error answer, a transport
    failure the unexpected-error answer with the library's text, no hit the
    invalid-id answer, and a hit the success answer, which names the first
    hit by its display name.  Only the last case writes. *)
Theorem insert_answers (g : Z) (p : string) (w : world) :
  let w1 := logged w (search_request p 1) in
  (tracked g p w = true ->
     insert server g p w =
       (Return tt, posted w (ErrorEmbed "This policy id is already added!"))) /\
  (tracked g p w = false ->
     (forall resp, server (requests w) (search_request p 1) = Reply resp ->
        status resp <> 200 -> status resp <> 404 ->
        insert server g p w =
          (Return tt,
           posted w1 (ErrorEmbed "There was an error when fetching the collection!"))) /\
     (forall text, server (requests w) (search_request p 1) = Failed text ->
        insert server g p w =
          (Return tt,
           posted w1 (ErrorEmbed
             ("There was an unexpected error when fetching the collection:"
              ++ newline ++ text)))) /\
     (forall resp, server (requests w) (search_request p 1) = Reply resp ->
        zero_hits resp ->
        insert server g p w =
          (Return tt,
           posted w1 (ErrorEmbed "This doesn't seem to be a valid policy id!"))) /\
     (forall resp data h hs, server (requests w) (search_request p 1) = Reply resp ->
        status resp = 200 -> payload resp = inr data ->
        j_collections data = Val (h :: hs) ->
        insert server g p w =
          (Return tt,
           posted (mkWorld (table w ++ [(g, p)])%list (requests w1) (sent w1))
             (SuccessEmbed ("Successfully added **" ++ fmt (get (hit_display_name h))
                            ++ "** to the list!"))))).
Proof.
  intros w1. split.
  - intros Ht. now rewrite insert_run, Ht.
  - intros Ht. split; [|split; [|split]].
    + intros resp Hreply H200 H404. rewrite insert_run, Ht.
      now rewrite (fetch_collections_other server _ _ _ _ Hreply H200 H404).
    + intros text Hfail. rewrite insert_run, Ht.
      unfold fetch_collections, bind.
      now rewrite (session_get_failed server _ _ _ Hfail).
    + intros resp Hreply [H404 | (H200 & data & Hp & Hnone)]; rewrite insert_run, Ht.
      * now rewrite (fetch_collections_404 server _ _ _ _ Hreply H404).
      * rewrite (fetch_collections_200 server _ _ _ _ _ Hreply H200 Hp).
        now destruct Hnone as [-> | ->].
    + intros resp data h hs Hreply H200 Hp Hhits. rewrite insert_run, Ht.
      rewrite (fetch_collections_200 server _ _ _ _ _ Hreply H200 Hp), Hhits.
      reflexivity.
Qed.

End Lists.

(** *** The report, entry by entry *)

Section Report.

Variable server : service.

(** What a run of the loop that returns has added to the description. *)
Lemma pass_loop_blocks (policy_ids : list string) :
  forall (index : Z) (description : list report_block) (w : world)
         (blocks : list report_block) (w1 : world),
  pass_loop server index policy_ids description w = (Return blocks, w1) ->
  exists added,
    blocks = (description ++ added)%list /\
    (List.length added <= List.length policy_ids)%nat /\
    Forall (fun n => index < n <= index + Z.of_nat (List.length policy_ids))
           (numbers added) /\
    StronglySorted Z.lt (numbers added).
Proof.
  induction policy_ids as [| policy rest IH]; intros index description w blocks w1.
  - intros [= <- <-]. exists []. rewrite app_nil_r. repeat split; constructor.
  - assert (Hnext : forall w0,
               pass_loop server (index + 1) rest description w0 = (Return blocks, w1) ->
               exists added,
                 blocks = (description ++ added)%list /\
                 (List.length added <= List.length (policy :: rest))%nat /\
                 Forall (fun n => index < n <= index + Z.of_nat (List.length (policy :: rest)))
                        (numbers added) /\
                 StronglySorted Z.lt (numbers added)).
    { intros w0 Hrun. destruct (IH _ _ _ _ _ Hrun) as (added & Hb & Hl & Hf & Hs).
      exists added. split; [exact Hb|]. split; [simpl; lia|]. split; [|exact Hs].
      eapply Forall_impl; [|exact Hf]. intros n Hn. cbv beta in *.
      cbn [List.length]. rewrite Nat2Z.inj_succ. lia. }
    cbn [pass_loop]. unfold bind.
    repeat run_next; try discriminate; try (intros Hrun; now apply (Hnext _ Hrun)).
    intros Hrun. destruct (IH _ _ _ _ _ Hrun) as (added & Hb & Hl & Hf & Hs).
    match type of Hb with
    | _ = ((_ ++ [?b]) ++ _)%list => exists (b :: added)
    end.
    split; [now rewrite Hb, <- app_assoc|]. split; [simpl; lia|].
    unfold numbers in *. cbn [map blk_number]. split.
    + constructor.
      * cbn [List.length]. rewrite Nat2Z.inj_succ. lia.
      * eapply Forall_impl; [|exact Hf]. intros n Hn. cbv beta in *.
        cbn [List.length]. rewrite Nat2Z.inj_succ. lia.
    + constructor; [exact Hs|].
      eapply Forall_impl; [|exact Hf]. intros n Hn. cbv beta in *. lia.
Qed.

(** The numbers of the blocks that a stretch of the loop adds. *)
Lemma pass_loop_numbers (policy_ids : list string) (index : Z)
    (description : list report_block) (w : world)
    (blocks : list report_block) (w1 : world) :
  pass_loop server index policy_ids description w = (Return blocks, w1) ->
  exists added,
    blocks = (description ++ added)%list /\
    (List.length added <= List.length policy_ids)%nat /\
    forall n, In n (numbers added) ->
      index < n <= index + Z.of_nat (List.length policy_ids).
Proof.
  intros Hrun. destruct (pass_loop_blocks _ _ _ _ _ _ Hrun) as (added & Hb & Hl & Hf & _).
  exists added. split; [exact Hb|]. split; [exact Hl|].
  intros n Hn. exact (proj1 (Forall_forall _ _) Hf n Hn).
Qed.

(** X16: the blocks of a report are numbered by the position of their policy
    id in the tracked list, not by their position in the report.  When the
    report command returns for a server that tracks [n] ids, it has sent one
    report with at most [n] blocks, whose numbers lie between 1 and [n] and
    increase strictly.  And for the entry at each position [k] of the list
    (counted from 1), with the loop run up to that entry: either the turn of
    the loop on that entry adds no block, and then no block of the report
    has the number [k], so a skipped entry leaves a gap; or it adds one
    block, and then that block has the number [k] and is in the report. *)
Theorem report_numbers_follow_the_list (g : Z) (w : world) :
  listing g w <> [] ->
  fst (_pass server g w) = Return tt ->
  exists blocks,
    sent (snd (_pass server g w)) = (sent w ++ [ReportEmbed blocks])%list /\
    (List.length blocks <= List.length (listing g w))%nat /\
    Forall (fun n => 1 <= n <= Z.of_nat (List.length (listing g w))) (numbers blocks) /\
    StronglySorted Z.lt (numbers blocks) /\
    (forall (before : list string) (policy : string) (after : list string),
       listing g w = (before ++ policy :: after)%list ->
       exists (blocks0 : list report_block) (w1 : world)
              (result : list report_block) (w2 : world),
         pass_loop server 0 before [] w = (Return blocks0, w1) /\
         pass_loop server (Z.of_nat (List.length before)) [policy] blocks0 w1
           = (Return result, w2) /\
         ((result = blocks0 /\
           ~ In (Z.of_nat (List.length before) + 1) (numbers blocks)) \/
          (exists b : report_block,
             result = (blocks0 ++ [b])%list /\
             blk_number b = Z.of_nat (List.length before) + 1 /\
             In b blocks))).
Proof.
  intros Hne. unfold _pass, bind. rewrite get_policy_ids_run.
  remember (listing g w) as ids eqn:Hids.
  destruct ids as [| p0 ps]; [contradiction|].
  pose proof (keeps_pass_loop server sent (fun _ _ => eq_refl) (p0 :: ps) 0 [] w) as Hsent.
  destruct (pass_loop server 0 (p0 :: ps) [] w) as [[blocks | e] wf] eqn:Hloop;
    [|discriminate].
  intros _. destruct (pass_loop_blocks _ _ _ _ _ _ Hloop) as (added & Hb & Hl & Hf & Hs).
  simpl in Hb. subst added. exists blocks. simpl in Hsent. simpl.
  split; [now rewrite Hsent|]. split; [exact Hl|].
  split; [|split; [exact Hs|]].
  { eapply Forall_impl; [|exact Hf]. intros n Hn. simpl in Hn. lia. }
  intros before policy after Hsplit.
  rewrite Hsplit in Hloop. rewrite pass_loop_app in Hloop.
  destruct (pass_loop server 0 before [] w) as [[blocks0 | e0] w1] eqn:Hbefore;
    [|discriminate].
  change (policy :: after) with ([policy] ++ after)%list in Hloop.
  rewrite pass_loop_app in Hloop. rewrite Z.add_0_l in Hloop.
  destruct (pass_loop server (Z.of_nat (List.length before)) [policy] blocks0 w1)
    as [[result | e1] w2] eqn:Hone; [|discriminate].
  exists blocks0, w1, result, w2. split; [reflexivity|]. split; [exact Hone|].
  destruct (pass_loop_numbers _ _ _ _ _ _ Hbefore) as (added0 & Hb0 & _ & Hn0).
  destruct (pass_loop_numbers _ _ _ _ _ _ Hone) as (added1 & Hb1 & Hl1 & Hn1).
  destruct (pass_loop_numbers _ _ _ _ _ _ Hloop) as (added2 & Hb2 & _ & Hn2).
  simpl in Hb0. subst added0.
  cbn [List.length] in Hl1, Hn1, Hn2.
  destruct added1 as [| b [| b' added1]]; [| |simpl in Hl1; lia].
  - left. rewrite app_nil_r in Hb1. split; [exact Hb1|].
    subst result blocks. unfold numbers. rewrite map_app. intros Hin.
    apply in_app_or in Hin as [Hin | Hin].
    + apply Hn0 in Hin. lia.
    + apply Hn2 in Hin. lia.
  - right. exists b. split; [exact Hb1|]. split.
    + specialize (Hn1 (blk_number b) (or_introl eq_refl)). lia.
    + subst blocks result. apply in_or_app. left. apply in_or_app. right. now left.
Qed.

(** A search without a hit returns the empty list. *)
Lemma fetch_collections_zero_hits (q : string) (amount : Z) (w : world)
    (resp : response) :
  server (requests w) (search_request q amount) = Reply resp ->
  zero_hits resp ->
  fst (fetch_collections server q amount w) = Return [].
Proof.
  intros Hreply [H404 | (H200 & data & Hp & Hnone)].
  - now rewrite (fetch_collections_404 server _ _ _ _ Hreply H404).
  - rewrite (fetch_collections_200 server _ _ _ _ _ Hreply H200 Hp).
    now destruct Hnone as [-> | ->].
Qed.

Lemma pass_loop_never_resolve (policy_ids : list string) :
  never_resolve server policy_ids ->
  forall index description w,
  pass_loop server index policy_ids description w =
    (Return description, after_requests w (searches policy_ids)).
Proof.
  induction policy_ids as [| policy rest IH]; intros Hnever index description w.
  - simpl. unfold ret, after_requests. simpl. rewrite app_nil_r. now destruct w.
  - destruct (Hnever (requests w) policy (or_introl eq_refl)) as (resp & Hreply & Hzero).
    rewrite pass_loop_skips_unresolved
      by exact (fetch_collections_zero_hits _ _ _ _ Hreply Hzero).
    rewrite IH.
    + unfold after_requests, logged, searches. simpl. now rewrite <- app_assoc.
    + intros log p Hin. apply Hnever. now right.
Qed.

(** X17: when none of a server's tracked ids resolves (every search is a 404
    or has no hit), the report command still sends a report: one embed with
    an empty description, after one search per tracked id and nothing else.
    It does not fall back to the empty-list message. *)
Theorem report_of_unresolved_ids_is_empty (g : Z) (w : world) :
  listing g w <> [] ->
  never_resolve server (listing g w) ->
  _pass server g w =
    (Return tt, posted (after_requests w (searches (listing g w))) (ReportEmbed [])).
Proof.
  intros Hne Hnever. unfold _pass. unfold bind at 1. rewrite get_policy_ids_run.
  destruct (listing g w) as [| p0 ps] eqn:Hl; [contradiction|].
  unfold bind. now rewrite (pass_loop_never_resolve (p0 :: ps) Hnever).
Qed.

(** X18: a missing last sale does not drop an entry.  When the id resolves,
    the composite read is a 200 with the three metrics, and the last-sale
    read is a 404 or has no transaction, the entry gets its block: numbered
    by its position, named after the first search hit, with the floor and
    the volume in major units, the volume rounded to one decimal, the supply
    as it came, and no last sale; the loop goes on with the next id. *)
Theorem report_entry_without_last_sale (index : Z) (policy : string)
    (rest : list string) (description : list report_block) (w : world)
    (found metrics sale : response) (data1 data2 : body) (h : hit) (hs : list hit)
    (raw_floor raw_volume : Z) (floor_price major volume : pyfloat) :
  let w1 := logged w (search_request policy 1) in
  let w2 := logged w1 (mkRequest (policy_url policy) []) in
  let c := collection_of_hit h in
  server (requests w) (search_request policy 1) = Reply found ->
  status found = 200 -> payload found = inr data1 ->
  j_collections data1 = Val (h :: hs) ->
  server (requests w1) (mkRequest (policy_url policy) []) = Reply metrics ->
  status metrics = 200 -> payload metrics = inr data2 ->
  j_floor_price data2 = Val raw_floor ->
  j_asset_minted data2 <> Missing ->
  j_total_volume data2 = Val raw_volume ->
  int_truediv raw_floor 1000000 = Quotient floor_price ->
  int_truediv raw_volume 1000000 = Quotient major ->
  py_round major 1 = Some volume ->
  server (requests w2) (last_sale_request c) = Reply sale ->
  (status sale = 404 \/
   (status sale = 200 /\ exists data3, payload sale = inr data3 /\
      (get (j_transactions data3) = None \/ get (j_transactions data3) = Some []))) ->
  pass_loop server index (policy :: rest) description w =
    pass_loop server (index + 1) rest
      (description ++
       [mkBlock (index + 1) (get (hit_display_name h)) floor_price
                (get (j_asset_minted data2)) volume None])%list
      (logged w2 (last_sale_request c)).
Proof.
  intros w1 w2 c Hfound Hf200 Hfp Hhits Hmetrics Hm200 Hmp Hfloor Hsupply Hvolume
         Hdiv Hmajor Hround Hsale Hnone.
  apply (pass_loop_reports server index policy rest description w c
           (map collection_of_hit hs) metrics data2 raw_floor raw_volume
           floor_price volume None); try assumption.
  - rewrite (fetch_collections_200 server _ _ _ _ _ Hfound Hf200 Hfp), Hhits.
    reflexivity.
  - unfold volume_of, bind, to_major, json_truediv, truediv. rewrite Hmajor. simpl.
    unfold round_float. now rewrite Hround.
  - fold w1 w2. destruct Hnone as [H404 | (H200 & data3 & Hp & Hn)].
    + rewrite (fetch_last_sale_not_200 server _ _ _ Hsale) by lia. now rewrite H404.
    + rewrite (fetch_last_sale_200 server _ _ _ _ Hsale H200 Hp).
      now destruct Hn as [-> | ->].
Qed.

(** X19: a composite read that is a 200 but lacks a metric ends the whole
    report.  For the first tracked id: a body without [floor_price] raises
    [KeyError] for that key, a null [floor_price] raises [TypeError], and a
    body with the floor but without [asset_minted] raises [KeyError] for
    [asset_minted]; in each case nothing is sent, the last-sale read is not
    made and the ids after it are not looked at. *)
Theorem report_aborts_on_missing_metric (g : Z) (w : world) (policy : string)
    (rest : list string) (found metrics : response) (data1 data2 : body)
    (h : hit) (hs : list hit) :
  let w1 := logged w (search_request policy 1) in
  let w2 := logged w1 (mkRequest (policy_url policy) []) in
  listing g w = policy :: rest ->
  server (requests w) (search_request policy 1) = Reply found ->
  status found = 200 -> payload found = inr data1 ->
  j_collections data1 = Val (h :: hs) ->
  server (requests w1) (mkRequest (policy_url policy) []) = Reply metrics ->
  status metrics = 200 -> payload metrics = inr data2 ->
  (j_floor_price data2 = Missing ->
     _pass server g w = (Raise (KeyError "floor_price"), w2)) /\
  (j_floor_price data2 = Null ->
     _pass server g w =
       (Raise (TypeError "unsupported operand type(s) for /: 'NoneType' and 'int'"), w2)) /\
  (forall raw_floor floor_price, j_floor_price data2 = Val raw_floor ->
     int_truediv raw_floor 1000000 = Quotient floor_price ->
     j_asset_minted data2 = Missing ->
     _pass server g w = (Raise (KeyError "asset_minted"), w2)).
Proof.
  intros w1 w2 Hl Hfound Hf200 Hfp Hhits Hmetrics Hm200 Hmp.
  assert (Hres : fetch_collections server policy 1 w =
                 (Return (collection_of_hit h :: map collection_of_hit hs), w1)).
  { apply fetch_collections_run.
    rewrite (fetch_collections_200 server _ _ _ _ _ Hfound Hf200 Hfp), Hhits.
    reflexivity. }
  assert (Hstart : forall o,
    (data <- json metrics ;;
     raw_floor <- subscript "floor_price" (j_floor_price data) ;;
     floor_price <- to_major raw_floor ;;
     supply <- subscript "asset_minted" (j_asset_minted data) ;;
     raw_volume <- subscript "total_volume" (j_total_volume data) ;;
     volume <- volume_of raw_volume ;;
     last_sale <- fetch_last_sale server (collection_of_hit h) ;;
     pass_loop server (0 + 1) rest
       ([] ++ [mkBlock (0 + 1) (display_name (collection_of_hit h)) floor_price supply
                       volume last_sale])%list) w2 = (Raise o, w2) ->
    _pass server g w = (Raise o, w2)).
  { intros o Hbody. unfold _pass. unfold bind at 1. rewrite get_policy_ids_run, Hl.
    unfold bind at 1. cbn [pass_loop]. unfold bind at 1. rewrite Hres.
    unfold bind at 1. fold w1. rewrite (session_get_reply server _ _ _ Hmetrics).
    fold w2. rewrite Hm200. simpl (200 =? 404). simpl (negb (200 =? 200)). cbv iota.
    now rewrite Hbody. }
  split; [|split].
  - intros Hmiss. apply Hstart. unfold bind, json. rewrite Hmp. simpl.
    now rewrite Hmiss.
  - intros Hnull. apply Hstart. unfold bind, json. rewrite Hmp. simpl.
    now rewrite Hnull.
  - intros raw_floor floor_price Hval Hdiv Hmiss. apply Hstart.
    unfold bind, json. rewrite Hmp. simpl. rewrite Hval. simpl.
    unfold to_major, json_truediv, truediv. rewrite Hdiv. simpl.
    now rewrite Hmiss.
Qed.

End Report.

(* ================================================================== *)
(** ** Worked instances *)
(* ================================================================== *)

(** Python's [1 / 3] is the double 0x3FD5555555555555, [1 / 10] is
    0x3FB999999999999A, a tie in the last place goes to the even mantissa,
    and a quotient beyond the largest double raises. *)
Example truediv_samples :
  int_truediv 1 3 = Quotient (mkFloat false 6004799503160661 (-54)) /\
  int_truediv 1 10 = Quotient (mkFloat false 7205759403792794 (-56)) /\
  int_truediv (2 ^ 53 + 1) 1 = Quotient (mkFloat false (2 ^ 52) 1) /\
  int_truediv (-7) 2 = Quotient (mkFloat true (7 * 2 ^ 50) (-51)) /\
  int_truediv (10 ^ 320) 1000000 = DivisionOverflow.
Proof. repeat split. Qed.

(** [round(0.25, 1)] is [0.2] and [round(0.35, 1)] is [0.3]: the first is a
    tie that goes to the even digit, the second rounds the binary value of
    [0.35], which lies below the decimal. *)
Example round_samples :
  match decimal_literal 25 2 with Some x => py_round x 1 | None => None end
    = decimal_literal 2 1 /\
  match decimal_literal 35 2 with Some x => py_round x 1 | None => None end
    = decimal_literal 3 1.
Proof. repeat split. Qed.

(** ['a//b/'.split('/')] is [['a', '', 'b', '']], and a string without the
    separator is its own single piece. *)
Example split_samples :
  split slash "a//b/" = ["a"; EmptyString; "b"; EmptyString] /\
  split slash "abc" = ["abc"] /\
  split slash EmptyString = [EmptyString] /\
  last_piece (split slash "ipfs/abc123") = "abc123".
Proof. repeat split. Qed.

(** Three tracked ids; the first resolves and has its metrics, the search
    for the second is answered with 500: the report command raises after
    four requests, nothing is sent, and the third id is never resolved. *)
Lemma pass_aborts_when_resolution_raises_witness :
  _pass search_down 1 (start [(1, "p2"); (1, "p1"); (1, "p3")]) =
    (Raise FetchingException,
     mkWorld [(1, "p2"); (1, "p1"); (1, "p3")]
       [search_request "p2" 1; mkRequest (policy_url "p2") [];
        last_sale_request gamma; search_request "p1" 1]
       []).
Proof.
  apply (pass_aborts_when_resolution_raises search_down 1
           (start [(1, "p2"); (1, "p1"); (1, "p3")]) ["p2"] "p1" ["p3"]
           [mkBlock 1 (Some "Gamma") five (Some 100) one_point_two
                    (Some (mkFloat false 7881299347898368 (-50)))]
           (mkWorld [(1, "p2"); (1, "p1"); (1, "p3")]
              [search_request "p2" 1; mkRequest (policy_url "p2") [];
               last_sale_request gamma] [])
           (mkResponse 500 (inl EmptyString))).
  - reflexivity.
  - reflexivity.
  - reflexivity.
  - discriminate.
  - discriminate.
Defined.

(** An id that resolves, then one whose search is a 404: the first is
    reported as block 1 with the floor 5.0 and the volume 1.2, the second is
    skipped. *)
Example pass_report_sample :
  _pass search_down 1 (start [(1, "p2"); (1, "p3")]) =
    (Return tt,
     mkWorld [(1, "p2"); (1, "p3")]
       [search_request "p2" 1; mkRequest (policy_url "p2") [];
        last_sale_request gamma; search_request "p3" 1]
       [ReportEmbed
          [mkBlock 1 (Some "Gamma") five (Some 100) one_point_two
                   (Some (mkFloat false 7881299347898368 (-50)))]]).
Proof. reflexivity. Qed.

(** The floor read of the first of two candidates lacks the [floor] key: the
    fetch raises [KeyError], the lookup ends with it, and neither an error
    entry for the first candidate nor the record of the second is sent.  The
    same happens when the read meets a transport failure, and when the floor
    is too large for a float. *)
Lemma floor_aborts_on_missing_key :
  fst (fetch_collections missing_floor "x" 5 (start [])) = Return [alpha; beta] /\
  fst (fetch_floor_price missing_floor alpha
         (logged (start []) (search_request "x" 5))) = Raise (KeyError "floor") /\
  fst (fetch_floor_price missing_floor beta
         (after_requests (start []) [search_request "x" 5; floor_request alpha]))
    = Return (Some five) /\
  floor missing_floor "x" (start []) =
    (Raise (KeyError "floor"),
     after_requests (start []) [search_request "x" 5; floor_request alpha]) /\
  sent (snd (floor missing_floor "x" (start []))) = [] /\
  floor dropped_floor "x" (start []) =
    (Raise (ClientError "Server disconnected"),
     after_requests (start []) [search_request "x" 5; floor_request alpha]) /\
  floor huge_floor "x" (start []) =
    (Raise (OverflowError "integer division result too large for a float"),
     after_requests (start []) [search_request "x" 5; floor_request alpha]).
Proof. repeat split. Qed.

Lemma floor_isolates_handled_failures_witness :
  exists entries : list message,
    floor one_failing "x" (start []) =
      (Return tt,
       mkWorld [] [search_request "x" 5; floor_request alpha; floor_request beta] entries) /\
    nth_error entries 0 =
      Some (ErrorEmbed
              "There was an error when fetching the floor price for the Alpha collection!") /\
    nth_error entries 1 = Some (FloorEmbed (Some "Beta") five).
Proof.
  destruct (floor_isolates_handled_failures one_failing "x" (start []) [alpha; beta])
    as (entries & Hrun & _ & Hnth & _).
  - reflexivity.
  - discriminate.
  - intros [| [| n]] c Hn; simpl in Hn.
    + injection Hn as <-. reflexivity.
    + injection Hn as <-. exact I.
    + destruct n; discriminate.
  - exists entries. split; [exact Hrun|]. split.
    + exact (Hnth 0%nat alpha eq_refl).
    + exact (Hnth 1%nat beta eq_refl).
Defined.

(** The search finds Alpha and Beta; the floor read of Alpha has no [floor]
    key: the lookup ends with [KeyError] after two requests, with nothing
    sent, though the floor of Beta was there to be read. *)
Lemma floor_aborts_on_unhandled_fetch_witness :
  floor missing_floor "x" (start []) =
    (Raise (KeyError "floor"),
     mkWorld [] [search_request "x" 5; floor_request alpha] []) /\
  fst (fetch_floor_price missing_floor beta
         (after_requests (start []) [search_request "x" 5; floor_request alpha]))
    = Return (Some five).
Proof.
  split; [|reflexivity].
  destruct (floor_aborts_on_unhandled_fetch missing_floor "x" (start []) [] alpha [beta])
    as (Hkey & _).
  - reflexivity.
  - intros [| n] c' Hn; discriminate.
  - destruct (Hkey (mkResponse 200 (inr (with_floor Missing))) (with_floor Missing)
                eq_refl eq_refl eq_refl eq_refl) as (entries & Hrun & Hlen).
    destruct entries as [| msg entries]; [exact Hrun | discriminate].
Defined.

(** A 201 reply with a well-formed body: a 2xx status, and the fetch raises
    [FetchingException].  And a 200 reply whose floor is 10^320: the fetch
    raises [OverflowError], it returns no float. *)
Lemma fetch_floor_price_raises_on_201 :
  (200 <=? 201) && (201 <? 300) = true /\
  fst (fetch_floor_price created alpha (start [])) = Raise FetchingException /\
  huge_floor [] (floor_request alpha)
    = Reply (mkResponse 200 (inr (with_floor (Val (10 ^ 320))))) /\
  fst (fetch_floor_price huge_floor alpha (start []))
    = Raise (OverflowError "integer division result too large for a float").
Proof. repeat split; vm_compute; reflexivity. Qed.

Lemma fetch_floor_price_spec_witness :
  fst (fetch_floor_price floor_known alpha (start [])) = Return (Some five).
Proof.
  destruct (fetch_floor_price_spec floor_known alpha (start [])
              (mkResponse 200 (inr (with_floor (Val 5000000)))) eq_refl)
    as (_ & _ & Hval & _).
  destruct (Hval (with_floor (Val 5000000)) 5000000 eq_refl eq_refl eq_refl eq_refl)
    as (x & Hx & Hrun).
  injection Hx as <-. exact Hrun.
Defined.


Lemma floor_not_found_single_request_witness :
  floor nowhere "x" (start []) =
    (Return tt, posted (logged (start []) (search_request "x" 5))
                       (ErrorEmbed (not_found_text "x"))) /\
  requests (snd (floor nowhere "x" (start []))) = [search_request "x" 5].
Proof.
  destruct (floor_not_found_single_request nowhere "x" (start [])
              (mkResponse 404 (inl EmptyString)) eq_refl) as (Hrun & Hreq & _).
  - left. reflexivity.
  - split; [exact Hrun | exact Hreq].
Defined.



Lemma track_lists_once_witness :
  exists ids,
    fst (get_policy_ids 1 (snd (insert search_down 1 "p2" (start [(1, "p1")])))) = Return ids /\
    count_occ string_dec ids "p2" = 1%nat.
Proof.
  destruct (track_lists_once search_down 1 "p2" (start [(1, "p1")])) as (Honce & _).
  apply Honce. exists "Successfully added **Gamma** to the list!". reflexivity.
Defined.

(** Two tracks of one pair in flight on the empty table, the second making
    its pre-check while the first waits for its search: both pre-checks say
    the pair is not tracked, both invocations write and both report success,
    so the table holds the row twice and the server's list holds the policy
    id twice.  Served in turn, the same two tracks leave one row. *)
Lemma racing_tracks_write_twice :
  fst (policy_id_exists 1 "p2" (start [])) = Return false /\
  fst racing_tracks = (mkFlight 1 "p2" Finished, mkFlight 1 "p2" Finished) /\
  table (snd racing_tracks) = [(1, "p2"); (1, "p2")] /\
  sent (snd racing_tracks) =
    [SuccessEmbed "Successfully added **Gamma** to the list!";
     SuccessEmbed "Successfully added **Gamma** to the list!"] /\
  fst (get_policy_ids 1 (snd racing_tracks)) = Return ["p2"; "p2"] /\
  count_occ string_dec (listing 1 (snd racing_tracks)) "p2" = 2%nat /\
  table (snd (interleave search_down in_turn (launch 1 "p2") (launch 1 "p2") (start [])))
    = [(1, "p2")].
Proof. repeat split. Qed.

Lemma empty_list_short_circuits_witness :
  fst (get_policy_ids 7 (start [(1, "p1")])) = Return [] /\
  _pass search_down 7 (start [(1, "p1")]) =
    (Return tt, posted (start [(1, "p1")]) (ErrorEmbed empty_list_text)) /\
  requests (snd (_pass search_down 7 (start [(1, "p1")]))) = [].
Proof.
  apply (empty_list_short_circuits search_down 7 (start [(1, "p1")])).
  intros r [<- | []]. discriminate.
Defined.

Lemma fetch_image_url_spec_witness :
  exists u, fst (fetch_image_url with_image alpha (start [])) = Return (Some u) /\
            ends_with u "abc123".
Proof.
  destruct (fetch_image_url_spec with_image alpha (start [])
              (mkResponse 200 (inr (with_thumbnail (Val "ipfs/abc123"))))
              (with_thumbnail (Val "ipfs/abc123")) eq_refl eq_refl eq_refl)
    as (_ & _ & _ & Hex).
  apply Hex. reflexivity.
Defined.

Lemma insert_validates_before_writing_witness :
  table (snd (insert search_down 1 "p1" (start [(2, "q")]))) = [(2, "q")] /\
  table (snd (insert nowhere 1 "p" (start [(2, "q")]))) = [(2, "q")].
Proof.
  destruct (insert_validates_before_writing search_down 1 "p1" (start [(2, "q")]))
    as (_ & Hraise & _).
  destruct (insert_validates_before_writing nowhere 1 "p" (start [(2, "q")]))
    as (_ & _ & Hnone & _).
  split.
  - apply (Hraise FetchingException). reflexivity.
  - apply Hnone. reflexivity.
Defined.

(* ================================================================== *)
(** ** More worked instances *)
(* ================================================================== *)

(** Two transactions, the second without an amount: the first is the last
    sale, 7.0. *)
Lemma fetch_last_sale_spec_witness :
  fst (fetch_last_sale sold_twice gamma (start [])) =
    Return (Some (mkFloat false 7881299347898368 (-50))).
Proof.
  destruct (fetch_last_sale_spec sold_twice gamma (start [])
              (mkResponse 200 (inr two_sales)) eq_refl) as (_ & _ & Hfirst & _).
  apply (Hfirst two_sales (mkTxn (Val 7000000)) [mkTxn Missing] 7000000); reflexivity.
Defined.

(** A search that asked for one hit and got two returns two collections. *)
Lemma fetch_collections_keeps_every_hit_witness :
  exists cs,
    fst (fetch_collections missing_floor "x" 1 (start [])) = Return cs /\
    List.length cs = 2%nat.
Proof.
  destruct (fetch_collections_keeps_every_hit missing_floor "x" 1 (start [])
              (mkResponse 200
                 (inr (with_hits [hit_of "alpha" "Alpha" "pa"; hit_of "beta" "Beta" "pb"])))
              (with_hits [hit_of "alpha" "Alpha" "pa"; hit_of "beta" "Beta" "pb"])
              [hit_of "alpha" "Alpha" "pa"; hit_of "beta" "Beta" "pb"]
              eq_refl eq_refl eq_refl eq_refl) as (cs & Hrun & Hlen & _).
  exists cs. split; [exact Hrun | exact Hlen].
Defined.

(** A 404 whose body is HTML is still no image. *)
Lemma reads_decided_by_status_witness :
  fst (fetch_image_url image_gone alpha (start [])) = Return None.
Proof.
  destruct (reads_decided_by_status image_gone alpha "x" 5 (start [])
              (mkResponse 404 (inl "<html>"))) as (Hstatus & _).
  destruct Hstatus as (_ & _ & Himage & _); [discriminate|].
  apply Himage. reflexivity.
Defined.

(** The thumbnail [ipfs/] gets the bare gateway prefix. *)
Lemma image_url_from_last_segment_witness :
  fst (fetch_image_url image_bare alpha (start [])) = Return (Some gateway).
Proof.
  apply (image_url_from_last_segment image_bare alpha (start [])
           (mkResponse 200 (inr (with_thumbnail (Val "ipfs/"))))
           (with_thumbnail (Val "ipfs/")) "ipfs" EmptyString); reflexivity.
Defined.

Lemma floor_answers_resolution_failure_witness :
  floor dropped_search "x" (start []) =
    (Return tt,
     mkWorld [] [search_request "x" 5]
       [ErrorEmbed ("There was an unexpected error when fetching the collections:"
                    ++ newline ++ "Server disconnected")]).
Proof.
  destruct (floor_answers_resolution_failure dropped_search "x" (start []))
    as (_ & Hfailed & _).
  apply (Hfailed "Server disconnected"). reflexivity.
Defined.

(** Three candidates, the second without a floor key: the first has its
    record, the loop raises, the third is not fetched. *)
Lemma floor_keeps_answers_before_abort_witness :
  exists entries : list message,
    floor_loop missing_floor [beta; alpha; beta] (start []) =
      (Raise (KeyError "floor"),
       mkWorld [] [floor_request beta; floor_request alpha] entries) /\
    List.length entries = 1%nat.
Proof.
  destruct (floor_keeps_answers_before_abort missing_floor [beta] alpha [beta]
              (start []) (KeyError "floor")) as (entries & Hrun & Hlen).
  - intros [| n] c Hn; simpl in Hn.
    + injection Hn as <-. exact I.
    + destruct n; discriminate.
  - reflexivity.
  - reflexivity.
  - exists entries. split; [exact Hrun | exact Hlen].
Defined.

Lemma commands_always_answer_witness :
  exists msgs,
    sent (snd (floor one_failing "x" (start []))) = msgs /\ List.length msgs = 2%nat.
Proof.
  destruct (commands_always_answer one_failing 1 "p" "x" (start []))
    as (_ & _ & _ & Hfloor).
  destruct (Hfloor eq_refl) as (msgs & Hsent & Hlen).
  exists msgs. split; [exact Hsent | exact Hlen].
Defined.

Lemma tracking_is_per_server_witness :
  listing 2 (snd (insert search_down 1 "p2" (start [(2, "p2"); (1, "p1")]))) = ["p2"] /\
  listing 2 (snd (remove 1 "p1" (start [(2, "p1"); (1, "p1")]))) = ["p1"].
Proof.
  destruct (tracking_is_per_server search_down 1 2 "p2" "p2"
              (start [(2, "p2"); (1, "p1")])) as (Hinsert & _); [discriminate|].
  destruct (tracking_is_per_server search_down 1 2 "p1" "p1"
              (start [(2, "p1"); (1, "p1")])) as (_ & Hremove & _); [discriminate|].
  split; [exact Hinsert | exact Hremove].
Defined.

Lemma list_keeps_insertion_order_witness :
  listing 1 (snd (insert search_down 1 "p2" (start [(1, "p9"); (1, "p1")])))
    = ["p9"; "p1"; "p2"].
Proof.
  destruct (list_keeps_insertion_order search_down 1 "p2"
              (start [(1, "p9"); (1, "p1")])) as (Hend & _).
  apply Hend. exists "Successfully added **Gamma** to the list!". reflexivity.
Defined.

Lemma track_untrack_round_trip_witness :
  table (snd (remove 1 "p2" (snd (insert search_down 1 "p2" (start [(1, "p1")])))))
    = [(1, "p1")].
Proof.
  destruct (track_untrack_round_trip search_down 1 "p2" (start [(1, "p1")]))
    as (Hback & _).
  - exists "Successfully added **Gamma** to the list!". reflexivity.
  - exact Hback.
Defined.

Lemma insert_answers_witness :
  insert search_down 1 "p2" (start []) =
    (Return tt,
     mkWorld [(1, "p2")] [search_request "p2" 1]
       [SuccessEmbed "Successfully added **Gamma** to the list!"]).
Proof.
  destruct (insert_answers search_down 1 "p2" (start [])) as (_ & Hnew).
  destruct (Hnew eq_refl) as (_ & _ & _ & Hhit).
  apply (Hhit (mkResponse 200 (inr (with_hits [hit_of "gamma" "Gamma" "p2"])))
              (with_hits [hit_of "gamma" "Gamma" "p2"])
              (hit_of "gamma" "Gamma" "p2") []); reflexivity.
Defined.

(** Three tracked ids of which only the second resolves: one block, with the
    number 2. *)
Lemma report_numbers_follow_the_list_witness :
  exists blocks,
    sent (snd (_pass search_down 1 (start [(1, "p0"); (1, "p2"); (1, "p3")])))
      = [ReportEmbed blocks] /\
    numbers blocks = [2].
Proof.
  destruct (report_numbers_follow_the_list search_down 1
              (start [(1, "p0"); (1, "p2"); (1, "p3")])) as (blocks & Hsent & _).
  - discriminate.
  - reflexivity.
  - exists blocks. split; [exact Hsent|].
    simpl in Hsent. injection Hsent as <-. reflexivity.
Defined.

Lemma report_of_unresolved_ids_is_empty_witness :
  _pass nowhere 1 (start [(1, "p1"); (1, "p2")]) =
    (Return tt,
     mkWorld [(1, "p1"); (1, "p2")] [search_request "p1" 1; search_request "p2" 1]
       [ReportEmbed []]).
Proof.
  apply (report_of_unresolved_ids_is_empty nowhere 1 (start [(1, "p1"); (1, "p2")])).
  - discriminate.
  - intros log policy _. exists (mkResponse 404 (inl EmptyString)).
    split; [reflexivity | now left].
Defined.

Lemma report_entry_without_last_sale_witness :
  pass_loop sale_unknown 0 ["p2"] [] (start []) =
    (Return [mkBlock 1 (Some "Gamma") five (Some 100) one_point_two None],
     mkWorld [] [search_request "p2" 1; mkRequest (policy_url "p2") [];
                 last_sale_request gamma] []).
Proof.
  rewrite (report_entry_without_last_sale sale_unknown 0 "p2" [] [] (start [])
             (mkResponse 200 (inr (with_hits [hit_of "gamma" "Gamma" "p2"])))
             (mkResponse 200 (inr (with_metrics 5000000 100 1234567)))
             (mkResponse 404 (inl EmptyString))
             (with_hits [hit_of "gamma" "Gamma" "p2"])
             (with_metrics 5000000 100 1234567)
             (hit_of "gamma" "Gamma" "p2") [] 5000000 1234567
             five (mkFloat false 5559995481163911 (-52)) one_point_two);
    try reflexivity.
  - discriminate.
  - now left.
Defined.

Lemma report_aborts_on_missing_metric_witness :
  _pass metrics_blank 1 (start [(1, "p2"); (1, "p3")]) =
    (Raise (KeyError "floor_price"),
     mkWorld [(1, "p2"); (1, "p3")]
       [search_request "p2" 1; mkRequest (policy_url "p2") []] []).
Proof.
  destruct (report_aborts_on_missing_metric metrics_blank 1
              (start [(1, "p2"); (1, "p3")]) "p2" ["p3"]
              (mkResponse 200 (inr (with_hits [hit_of "gamma" "Gamma" "p2"])))
              (mkResponse 200 (inr (with_floor Missing)))
              (with_hits [hit_of "gamma" "Gamma" "p2"]) (with_floor Missing)
              (hit_of "gamma" "Gamma" "p2") []
              eq_refl eq_refl eq_refl eq_refl eq_refl eq_refl eq_refl eq_refl)
    as (Hmissing & _).
  apply Hmissing. reflexivity.
Defined.

Lemma fetch_floor_price_accurate_witness :
  exists x,
    fst (fetch_floor_price floor_known alpha (start [])) = Return (Some x) /\
    fneg x = false /\
    2 ^ (prec - 1) <= fmant x < 2 ^ prec /\
    emin < fexp x <= emax.
Proof.
  destruct (fetch_floor_price_accurate floor_known alpha (start [])
              (mkResponse 200 (inr (with_floor (Val 5000000))))
              (with_floor (Val 5000000)) 5000000 eq_refl eq_refl eq_refl eq_refl)
    as (x & Hrun & Hsign & Hmant & Hexp & _).
  - split; reflexivity.
  - exists x. split; [exact Hrun | split; [exact Hsign | split; [exact Hmant | exact Hexp]]].
Defined.

(** A 404 is a search without collections. *)
Lemma no_collection_exactly_on_zero_hits_witness :
  fst (fetch_collections nowhere "x" 5 (start [])) = Return [].
Proof.
  apply (no_collection_exactly_on_zero_hits nowhere "x" 5 (start [])
           (mkResponse 404 (inl EmptyString)) eq_refl).
  now left.
Defined.
